(** * Stop, chime and announcement detectors of the transport logger

    A shallow embedding of the two proof-of-concept detector components
    (the motion based stop detector and the audio detector) together with
    the route builder they share, followed by the properties established
    about them.

    Modelling conventions
    - JavaScript numbers that hold sensor readings (magnitudes, variances,
      band energies) are exact rationals [Q]; rounding of IEEE doubles is
      not modelled.
    - [Date.now()] results are integers [Z] (milliseconds); counters and
      array positions are [nat]; [findIndex] results are [Z] because the
      source uses the value [-1].
    - Strings are [string] over ASCII; [toLowerCase] acts on [A-Z].
    - [useRef] cells and [useState] cells are fields of one record per
      component; a handler is a function from the record to the record.
    - The station table [../data/stations] is a parameter. *)

From Stdlib Require Import ZArith QArith List String Ascii Bool Lia.
From Stdlib Require Import Sorting.Sorted Sorting.Permutation.
From Stdlib Require Import DecimalString.
From Stdlib Require Import Qround.
From stdpp Require Import gmap strings.
Import ListNotations.

Open Scope Z_scope.

(** ** Shared types (src/types.ts) *)

Inductive LineId := mrt_blue | bts_sukhumvit | bts_silom | arl.

Definition LineId_eqb (a b : LineId) : bool :=
  match a, b with
  | mrt_blue, mrt_blue | bts_sukhumvit, bts_sukhumvit
  | bts_silom, bts_silom | arl, arl => true
  | _, _ => false
  end.

Record Station := {
  id : string;
  name : string;
  line : LineId;
  lat : Q;
  lng : Q
}.

(** ** Array primitives of the host language *)

(** [Array.prototype.findIndex]: position of the first element that
    satisfies [p], or [-1]. *)
Fixpoint findIndex {A} (p : A -> bool) (l : list A) : Z :=
  match l with
  | [] => -1
  | x :: r =>
      if p x then 0
      else let i := findIndex p r in if i <? 0 then -1 else i + 1
  end.

(** [Array.prototype.slice(start, end)], with the clamping of negative and
    oversized bounds the language prescribes. *)
Definition slice {A} (l : list A) (start stop : Z) : list A :=
  let len := Z.of_nat (length l) in
  let k := if start <? 0 then Z.max (len + start) 0 else Z.min start len in
  let final := if stop <? 0 then Z.max (len + stop) 0 else Z.min stop len in
  firstn (Z.to_nat (final - k)) (skipn (Z.to_nat k) l).

(** Strict order on rationals as a boolean (the [<] of the source). *)
Definition Qlt_bool (x y : Q) : bool :=
  Qnum x * QDen y <? Qnum y * QDen x.

(** ** Route construction (getStationsOnRoute, identical in both components) *)

Section RouteBuilder.

Variable stations : list Station.

Definition getStationsOnRoute (lineId : LineId) (originId destinationId : string)
  : list Station :=
  let lineStations := List.filter (fun s => LineId_eqb (line s) lineId) stations in
  let originIdx := findIndex (fun s => String.eqb (id s) originId) lineStations in
  let destIdx := findIndex (fun s => String.eqb (id s) destinationId) lineStations in
  if (originIdx =? -1) || (destIdx =? -1) then []
  else if originIdx <? destIdx then slice lineStations originIdx (destIdx + 1)
  else rev (slice lineStations destIdx (originIdx + 1)).

End RouteBuilder.

(** ** The motion based stop detector (first StopDetectorPoC component) *)

Module Motion.

Inductive MotionState := idle | moving | stopped.

Definition MotionState_eqb (a b : MotionState) : bool :=
  match a, b with
  | idle, idle | moving, moving | stopped, stopped => true
  | _, _ => false
  end.

(** [time] keeps the timestamp that the source renders with [formatTime]. *)
Record DetectedStop := {
  index : nat;
  stationName : string;
  time : Z
}.

Definition WINDOW_SIZE : nat := 60.
Definition STOP_THRESHOLD : Q := 3 # 10.
Definition MOVE_THRESHOLD : Q := 5 # 10.
Definition MIN_STOP_DURATION : nat := 8.
Definition MIN_MOVE_DURATION : nat := 10.
Definition MIN_STOP_MS : Z := 15000.
Definition MIN_GAP_MS : Z := 60000.

(** The refs and the state cells of the component. *)
Record State := {
  bufferRef : list Q;
  stateRef : MotionState;
  stateCounterRef : nat;
  stopCountRef : nat;
  routeRef : list Station;
  sampleCountRef : nat;
  lastSampleTimeRef : Z;
  stopStartTimeRef : Z;
  lastConfirmedStopRef : Z;
  pendingStopRef : bool;
  running : bool;
  permissionGranted : option bool;
  motionState : MotionState;
  variance : Q;
  detectedStops : list DetectedStop;
  routeStations : list Station;
  sampleRate : nat;
  ignoredStops : nat
}.

Definition set_bufferRef v s := Build_State v (stateRef s) (stateCounterRef s) (stopCountRef s) (routeRef s) (sampleCountRef s) (lastSampleTimeRef s) (stopStartTimeRef s) (lastConfirmedStopRef s) (pendingStopRef s) (running s) (permissionGranted s) (motionState s) (variance s) (detectedStops s) (routeStations s) (sampleRate s) (ignoredStops s).
Definition set_stateRef v s := Build_State (bufferRef s) v (stateCounterRef s) (stopCountRef s) (routeRef s) (sampleCountRef s) (lastSampleTimeRef s) (stopStartTimeRef s) (lastConfirmedStopRef s) (pendingStopRef s) (running s) (permissionGranted s) (motionState s) (variance s) (detectedStops s) (routeStations s) (sampleRate s) (ignoredStops s).
Definition set_stateCounterRef v s := Build_State (bufferRef s) (stateRef s) v (stopCountRef s) (routeRef s) (sampleCountRef s) (lastSampleTimeRef s) (stopStartTimeRef s) (lastConfirmedStopRef s) (pendingStopRef s) (running s) (permissionGranted s) (motionState s) (variance s) (detectedStops s) (routeStations s) (sampleRate s) (ignoredStops s).
Definition set_stopCountRef v s := Build_State (bufferRef s) (stateRef s) (stateCounterRef s) v (routeRef s) (sampleCountRef s) (lastSampleTimeRef s) (stopStartTimeRef s) (lastConfirmedStopRef s) (pendingStopRef s) (running s) (permissionGranted s) (motionState s) (variance s) (detectedStops s) (routeStations s) (sampleRate s) (ignoredStops s).
Definition set_routeRef v s := Build_State (bufferRef s) (stateRef s) (stateCounterRef s) (stopCountRef s) v (sampleCountRef s) (lastSampleTimeRef s) (stopStartTimeRef s) (lastConfirmedStopRef s) (pendingStopRef s) (running s) (permissionGranted s) (motionState s) (variance s) (detectedStops s) (routeStations s) (sampleRate s) (ignoredStops s).
Definition set_sampleCountRef v s := Build_State (bufferRef s) (stateRef s) (stateCounterRef s) (stopCountRef s) (routeRef s) v (lastSampleTimeRef s) (stopStartTimeRef s) (lastConfirmedStopRef s) (pendingStopRef s) (running s) (permissionGranted s) (motionState s) (variance s) (detectedStops s) (routeStations s) (sampleRate s) (ignoredStops s).
Definition set_lastSampleTimeRef v s := Build_State (bufferRef s) (stateRef s) (stateCounterRef s) (stopCountRef s) (routeRef s) (sampleCountRef s) v (stopStartTimeRef s) (lastConfirmedStopRef s) (pendingStopRef s) (running s) (permissionGranted s) (motionState s) (variance s) (detectedStops s) (routeStations s) (sampleRate s) (ignoredStops s).
Definition set_stopStartTimeRef v s := Build_State (bufferRef s) (stateRef s) (stateCounterRef s) (stopCountRef s) (routeRef s) (sampleCountRef s) (lastSampleTimeRef s) v (lastConfirmedStopRef s) (pendingStopRef s) (running s) (permissionGranted s) (motionState s) (variance s) (detectedStops s) (routeStations s) (sampleRate s) (ignoredStops s).
Definition set_lastConfirmedStopRef v s := Build_State (bufferRef s) (stateRef s) (stateCounterRef s) (stopCountRef s) (routeRef s) (sampleCountRef s) (lastSampleTimeRef s) (stopStartTimeRef s) v (pendingStopRef s) (running s) (permissionGranted s) (motionState s) (variance s) (detectedStops s) (routeStations s) (sampleRate s) (ignoredStops s).
Definition set_pendingStopRef v s := Build_State (bufferRef s) (stateRef s) (stateCounterRef s) (stopCountRef s) (routeRef s) (sampleCountRef s) (lastSampleTimeRef s) (stopStartTimeRef s) (lastConfirmedStopRef s) v (running s) (permissionGranted s) (motionState s) (variance s) (detectedStops s) (routeStations s) (sampleRate s) (ignoredStops s).
Definition setRunning v s := Build_State (bufferRef s) (stateRef s) (stateCounterRef s) (stopCountRef s) (routeRef s) (sampleCountRef s) (lastSampleTimeRef s) (stopStartTimeRef s) (lastConfirmedStopRef s) (pendingStopRef s) v (permissionGranted s) (motionState s) (variance s) (detectedStops s) (routeStations s) (sampleRate s) (ignoredStops s).
Definition setPermissionGranted v s := Build_State (bufferRef s) (stateRef s) (stateCounterRef s) (stopCountRef s) (routeRef s) (sampleCountRef s) (lastSampleTimeRef s) (stopStartTimeRef s) (lastConfirmedStopRef s) (pendingStopRef s) (running s) v (motionState s) (variance s) (detectedStops s) (routeStations s) (sampleRate s) (ignoredStops s).
Definition setMotionState v s := Build_State (bufferRef s) (stateRef s) (stateCounterRef s) (stopCountRef s) (routeRef s) (sampleCountRef s) (lastSampleTimeRef s) (stopStartTimeRef s) (lastConfirmedStopRef s) (pendingStopRef s) (running s) (permissionGranted s) v (variance s) (detectedStops s) (routeStations s) (sampleRate s) (ignoredStops s).
Definition setVariance v s := Build_State (bufferRef s) (stateRef s) (stateCounterRef s) (stopCountRef s) (routeRef s) (sampleCountRef s) (lastSampleTimeRef s) (stopStartTimeRef s) (lastConfirmedStopRef s) (pendingStopRef s) (running s) (permissionGranted s) (motionState s) v (detectedStops s) (routeStations s) (sampleRate s) (ignoredStops s).
Definition setDetectedStops v s := Build_State (bufferRef s) (stateRef s) (stateCounterRef s) (stopCountRef s) (routeRef s) (sampleCountRef s) (lastSampleTimeRef s) (stopStartTimeRef s) (lastConfirmedStopRef s) (pendingStopRef s) (running s) (permissionGranted s) (motionState s) (variance s) v (routeStations s) (sampleRate s) (ignoredStops s).
Definition setRouteStations v s := Build_State (bufferRef s) (stateRef s) (stateCounterRef s) (stopCountRef s) (routeRef s) (sampleCountRef s) (lastSampleTimeRef s) (stopStartTimeRef s) (lastConfirmedStopRef s) (pendingStopRef s) (running s) (permissionGranted s) (motionState s) (variance s) (detectedStops s) v (sampleRate s) (ignoredStops s).
Definition setSampleRate v s := Build_State (bufferRef s) (stateRef s) (stateCounterRef s) (stopCountRef s) (routeRef s) (sampleCountRef s) (lastSampleTimeRef s) (stopStartTimeRef s) (lastConfirmedStopRef s) (pendingStopRef s) (running s) (permissionGranted s) (motionState s) (variance s) (detectedStops s) (routeStations s) v (ignoredStops s).
Definition setIgnoredStops v s := Build_State (bufferRef s) (stateRef s) (stateCounterRef s) (stopCountRef s) (routeRef s) (sampleCountRef s) (lastSampleTimeRef s) (stopStartTimeRef s) (lastConfirmedStopRef s) (pendingStopRef s) (running s) (permissionGranted s) (motionState s) (variance s) (detectedStops s) (routeStations s) (sampleRate s) v.

(** The component as first rendered: every [useState] and [useRef] cell
    at its declared initial value. *)
Definition mounted : State := {|
  bufferRef := []; stateRef := idle; stateCounterRef := 0%nat;
  stopCountRef := 0%nat; routeRef := []; sampleCountRef := 0%nat;
  lastSampleTimeRef := 0; stopStartTimeRef := 0; lastConfirmedStopRef := 0;
  pendingStopRef := false; running := false; permissionGranted := None;
  motionState := idle; variance := 0; detectedStops := [];
  routeStations := []; sampleRate := 0%nat; ignoredStops := 0%nat
|}.

(** A [devicemotion] event as the handler sees it.  [magnitude] is [None]
    when [accelerationIncludingGravity] or one of its axes is missing, and
    otherwise the value of [Math.sqrt(x**2 + y**2 + z**2)]; [clock] is what
    [Date.now()] returns while the event is handled. *)
Record DeviceMotionEvent := {
  magnitude : option Q;
  clock : Z
}.

(** [buffer.reduce((a, b) => a + b, 0) / buffer.length] and
    [buffer.reduce((a, b) => a + (b - mean) ** 2, 0) / buffer.length]. *)
Definition meanOf (buffer : list Q) : Q :=
  Qdiv (fold_left (fun a b => Qplus a b) buffer 0%Q)
       (inject_Z (Z.of_nat (length buffer))).

Definition varianceOf (buffer : list Q) : Q :=
  let mean := meanOf buffer in
  Qdiv (fold_left (fun a b => Qplus a (Qpower (Qminus b mean) 2)) buffer 0%Q)
       (inject_Z (Z.of_nat (length buffer))).

(** Outcome of evaluating an expression that may throw. *)
Inductive outcome (A : Type) :=
| Returns (a : A)
| Throws.
Arguments Returns {A} a.
Arguments Throws {A}.

Definition beyondRoute (stopIdx : nat) : string :=
  ("Stop #" ++ NilEmpty.string_of_uint (Nat.to_uint (stopIdx + 1))
   ++ " (beyond route)")%string.

(** [stopIdx < route.length ? route[stopIdx].name : `Stop #... (beyond route)`].
    Reading [.name] of an absent element is the only way to throw. *)
Definition stationNameFor (route : list Station) (stopIdx : nat) : outcome string :=
  if (stopIdx <? length route)%nat then
    match nth_error route stopIdx with
    | Some s => Returns (name s)
    | None => Throws
    end
  else Returns (beyondRoute stopIdx).

(** The guard of [stationNameFor] keeps the access in range, so the lookup
    is used as a plain value inside the handler. *)
Definition valueOf (o : outcome string) : string :=
  match o with
  | Returns a => a
  | Throws => EmptyString
  end.

(** The closure [confirmStop] of [handleMotion]; [now] is the variable it
    captures. *)
Definition confirmStop (now : Z) (st : State) : State :=
  let stopTime := stopStartTimeRef st in
  let duration := now - stopTime in
  let gap := stopTime - lastConfirmedStopRef st in
  let st :=
    if (MIN_STOP_MS <=? duration)
       && ((lastConfirmedStopRef st =? 0) || (MIN_GAP_MS <=? gap))
    then
      let st := set_stopCountRef (S (stopCountRef st)) st in
      let st := set_lastConfirmedStopRef now st in
      let st := set_pendingStopRef false st in
      let stopIdx := stopCountRef st in
      let route := routeRef st in
      let stationName := valueOf (stationNameFor route stopIdx) in
      setDetectedStops
        (detectedStops st
         ++ [{| index := stopIdx; stationName := stationName; time := stopTime |}])
        st
    else setIgnoredStops (S (ignoredStops st)) st in
  set_pendingStopRef false st.

(** The sample rate display of [handleMotion] (source lines 123-130). *)
Definition trackSampleRate (now : Z) (st : State) : State :=
  let st := set_sampleCountRef (S (sampleCountRef st)) st in
  if 1000 <=? now - lastSampleTimeRef st then
    let st := setSampleRate (sampleCountRef st) st in
    let st := set_sampleCountRef 0%nat st in
    set_lastSampleTimeRef now st
  else st.

(** The state machine of [handleMotion] (source lines 144-206), entered
    with the variance [v] of the full window. *)
Definition classify (now : Z) (v : Q) (st : State) : State :=
  let prevState := stateRef st in
  if Qlt_bool v STOP_THRESHOLD then
    if negb (MotionState_eqb prevState stopped) then
      let st := set_stateCounterRef (S (stateCounterRef st)) st in
      if (MIN_STOP_DURATION <=? stateCounterRef st)%nat then
        let st := set_stateRef stopped st in
        let st := set_stateCounterRef 0%nat st in
        let st := setMotionState stopped st in
        if MotionState_eqb prevState moving then
          let st := set_stopStartTimeRef now st in
          set_pendingStopRef true st
        else st
      else st
    else
      let st := set_stateCounterRef 0%nat st in
      if pendingStopRef st && (MIN_STOP_MS <=? now - stopStartTimeRef st)
      then confirmStop now st
      else st
  else if Qlt_bool MOVE_THRESHOLD v then
    if negb (MotionState_eqb prevState moving) then
      let st := set_stateCounterRef (S (stateCounterRef st)) st in
      if (MIN_MOVE_DURATION <=? stateCounterRef st)%nat then
        let st := if pendingStopRef st then confirmStop now st else st in
        let st := set_stateRef moving st in
        let st := set_stateCounterRef 0%nat st in
        setMotionState moving st
      else st
    else set_stateCounterRef 0%nat st
  else st.

(** The [devicemotion] listener: buffer the reading, slide the window and,
    once the window is full, run the state machine on its variance. *)
Definition handleMotion (st : State) (event : DeviceMotionEvent) : State :=
  match magnitude event with
  | None => st
  | Some magnitude =>
    let st := set_bufferRef (bufferRef st ++ [magnitude]) st in
    let now := clock event in
    let st := trackSampleRate now st in
    let st :=
      if (WINDOW_SIZE <? length (bufferRef st))%nat
      then set_bufferRef (tl (bufferRef st)) st
      else st in
    if (length (bufferRef st) <? WINDOW_SIZE)%nat then st
    else
      let v := varianceOf (bufferRef st) in
      let st := setVariance v st in
      classify now v st
  end.

Section Session.

Variable stations : list Station.

(** [handleStart]; [granted] is the result of [requestPermission()] and
    [now] the value of [Date.now()] read by the handler. *)
Definition handleStart (selectedLine : LineId) (originId destinationId : string)
  (granted : bool) (now : Z) (st : State) : State :=
  if String.eqb originId EmptyString || String.eqb destinationId EmptyString
     || String.eqb originId destinationId
  then st
  else
    let st := setPermissionGranted (Some granted) st in
    if negb granted then st
    else
      let route := getStationsOnRoute stations selectedLine originId destinationId in
      let st := setRouteStations route st in
      let st := set_routeRef route st in
      let st := set_bufferRef [] st in
      let st := set_stateRef idle st in
      let st := set_stateCounterRef 0%nat st in
      let st := set_stopCountRef 0%nat st in
      let st := set_sampleCountRef 0%nat st in
      let st := set_lastSampleTimeRef now st in
      let st := set_stopStartTimeRef 0 st in
      let st := set_lastConfirmedStopRef 0 st in
      let st := set_pendingStopRef false st in
      let st := setDetectedStops [] st in
      let st := setIgnoredStops 0%nat st in
      let st := setMotionState idle st in
      let st := setVariance 0%Q st in
      setRunning true st.

Definition handleStop (st : State) : State :=
  setMotionState idle (setRunning false st).

(** What can happen to the component: the two buttons and the sensor.
    The [devicemotion] listener is installed only while [running]. *)
Inductive Input :=
| PressStart (selectedLine : LineId) (originId destinationId : string)
             (granted : bool) (now : Z)
| PressStop
| Sensor (event : DeviceMotionEvent).

Definition react (st : State) (i : Input) : State :=
  match i with
  | PressStart l o d g now => handleStart l o d g now st
  | PressStop => handleStop st
  | Sensor event => if running st then handleMotion st event else st
  end.

(** [Date.now()] counts milliseconds from 1970, so a reading handled by
    the listener carries a positive clock. *)
Definition clockRuns (i : Input) : bool :=
  match i with
  | Sensor event => 0 <? clock event
  | _ => true
  end.

End Session.

(** The stream of sensor callbacks of one running session. *)
Definition feed (st : State) (events : list DeviceMotionEvent) : State :=
  fold_left handleMotion events st.

(** The cells in which the detector keeps its verdicts: everything except
    the window, the displayed variance and the sample rate display. *)
Definition machine (st : State) :=
  (stateRef st, motionState st, stateCounterRef st, pendingStopRef st,
   stopStartTimeRef st, lastConfirmedStopRef st, stopCountRef st,
   detectedStops st, ignoredStops st).

(** The stop counter is zero exactly as long as the time of the last
    confirmation still holds its reset value. *)
Definition tallies (st : State) : Prop :=
  stopCountRef st = 0%nat <-> lastConfirmedStopRef st = 0.

(** The buffer once a reading [m] has been pushed and, if that made it
    longer than the window, its oldest element shifted out. *)
Definition window (buffer : list Q) (m : Q) : list Q :=
  let b := buffer ++ [m] in
  if (WINDOW_SIZE <? length b)%nat then tl b else b.

Definition qualifies (now : Z) (st : State) : bool :=
  (MIN_STOP_MS <=? now - stopStartTimeRef st)
  && ((lastConfirmedStopRef st =? 0)
      || (MIN_GAP_MS <=? stopStartTimeRef st - lastConfirmedStopRef st)).

Definition steady (st : State) : Prop :=
  (pendingStopRef st = true -> stateRef st = stopped)
  /\ (running st = true -> motionState st = stateRef st)
  /\ (stateCounterRef st < MIN_MOVE_DURATION)%nat.

Definition labelled (st : State) : Prop :=
  length (detectedStops st) = stopCountRef st
  /\ map index (detectedStops st) = seq 1 (stopCountRef st)
  /\ routeRef st = routeStations st
  /\ Forall (fun d => stationNameFor (routeRef st) (index d)
                      = Returns (stationName d)) (detectedStops st).

Definition paced (st : State) : Prop :=
  tallies st
  /\ (stopCountRef st = 0%nat -> detectedStops st = [])
  /\ Forall (fun d => time d + MIN_STOP_MS <= lastConfirmedStopRef st)
            (detectedStops st)
  /\ StronglySorted (fun a b => time a + (MIN_STOP_MS + MIN_GAP_MS) <= time b)
                    (detectedStops st).

Definition stopAt (now : Z) (st : State) : DetectedStop :=
  {| index := S (stopCountRef st);
     stationName := valueOf (stationNameFor (routeRef st) (S (stopCountRef st)));
     time := stopStartTimeRef st |}.

(** The route display (source lines 291-295), for the station at position
    [i] of the route: [detected] is the detected stop with that index, if
    any, and [isNext] marks the station the journey is heading for. *)
Definition detected (st : State) (i : nat) : option DetectedStop :=
  find (fun d => (index d =? i)%nat) (detectedStops st).

Definition isNext (st : State) (i : nat) : bool :=
  let isOrigin := (i =? 0)%nat in
  negb isOrigin
  && negb (match detected st i with Some _ => true | None => false end)
  && (Z.of_nat (length (detectedStops st)) =? Z.of_nat i - 1).

(** The state machine over a run of full windows, each given by the clock
    reading and the variance [handleMotion] passes on.  Between two
    windows the listener touches the buffer, the variance on display and
    the sample rate only, none of which the state machine reads. *)
Definition classifyEach (st : State) (windows : list (Z * Q)) : State :=
  fold_left (fun s w => classify (fst w) (snd w) s) windows st.

(** A window below the stop threshold. *)
Definition quiet (w : Z * Q) : bool := Qlt_bool (snd w) STOP_THRESHOLD.

(** The cells a quiet window can change only through a verdict. *)
Definition ledger (st : State) :=
  (lastConfirmedStopRef st, stopCountRef st, detectedStops st, ignoredStops st,
   routeRef st).

(** The full windows of a stream of events, from the buffer the stream
    finds: the clock reading of the event that completes the window and
    the variance of the window. *)
Fixpoint windowsOf (buffer : list Q) (events : list DeviceMotionEvent)
  : list (Z * Q) :=
  match events with
  | [] => []
  | event :: later =>
      match magnitude event with
      | None => windowsOf buffer later
      | Some m =>
          let b := window buffer m in
          if (length b <? WINDOW_SIZE)%nat then windowsOf b later
          else (clock event, varianceOf b) :: windowsOf b later
      end
  end.

End Motion.

(** ** String primitives of the host language (ASCII) *)

Definition lowerChar (c : ascii) : ascii :=
  let n := nat_of_ascii c in
  if (65 <=? n)%nat && (n <=? 90)%nat then ascii_of_nat (n + 32) else c.

(** [String.prototype.toLowerCase]. *)
Fixpoint toLowerCase (s : string) : string :=
  match s with
  | EmptyString => EmptyString
  | String c r => String (lowerChar c) (toLowerCase r)
  end.

(** [String.prototype.includes]: [sub] occurs somewhere in [s]. *)
Fixpoint includes (s sub : string) : bool :=
  String.prefix sub s
  || match s with
     | EmptyString => false
     | String _ r => includes r sub
     end.

(** The class [\s] restricted to ASCII: tab, line feed, vertical tab, form
    feed, carriage return and space. *)
Definition isSpace (c : ascii) : bool :=
  let n := nat_of_ascii c in
  ((9 <=? n)%nat && (n <=? 13)%nat) || (n =? 32)%nat.

(** [s.split(/\s+/)]: the pieces between maximal runs of white space; a
    run at either end leaves an empty piece there. *)
Fixpoint splitFrom (s cur : string) (inRun : bool) : list string :=
  match s with
  | EmptyString => [cur]
  | String c r =>
      if isSpace c then
        if inRun then splitFrom r cur true
        else cur :: splitFrom r EmptyString true
      else splitFrom r (cur ++ String c EmptyString)%string false
  end.

Definition splitSpaces (s : string) : list string :=
  splitFrom s EmptyString false.

(** [Array.prototype.sort(cmp)], which is stable: [x] stays in front of
    the elements it does not compare greater than. *)
Fixpoint insertBy {A} (cmp : A -> A -> Z) (x : A) (l : list A) : list A :=
  match l with
  | [] => [x]
  | y :: r => if cmp x y <=? 0 then x :: y :: r else y :: insertBy cmp x r
  end.

Definition sortBy {A} (cmp : A -> A -> Z) (l : list A) : list A :=
  fold_right (insertBy cmp) [] l.

Fixpoint spaceless (s : string) : bool :=
  match s with
  | EmptyString => true
  | String c r => negb (isSpace c) && spaceless r
  end.

(** ** Time stamps (formatTime, identical in both components) *)

(** The first [n] characters of [pad] repeated for ever; [cur] is what is
    left of the copy being written. *)
Fixpoint filler (n : nat) (pad cur : string) : string :=
  match n with
  | O => EmptyString
  | S n' =>
      match cur with
      | String c r => String c (filler n' pad r)
      | EmptyString =>
          match pad with
          | String c r => String c (filler n' pad r)
          | EmptyString => EmptyString
          end
      end
  end.

(** [String.prototype.padStart(targetLength, padString)]. *)
Definition padStart (s : string) (targetLength : nat) (padString : string) : string :=
  if (targetLength <=? String.length s)%nat then s
  else (filler (targetLength - String.length s) padString padString ++ s)%string.

(** [String(n)] for a natural number [n]. *)
Definition decimal (n : nat) : string :=
  NilEmpty.string_of_uint (Nat.to_uint n).

(** A [Date] as [formatTime] reads it: the local hours, minutes, seconds. *)
Record Date := {
  getHours : nat;
  getMinutes : nat;
  getSeconds : nat
}.

Definition formatTime (date : Date) : string :=
  (padStart (decimal (getHours date)) 2 "0" ++ ":"
   ++ padStart (decimal (getMinutes date)) 2 "0" ++ ":"
   ++ padStart (decimal (getSeconds date)) 2 "0")%string.

(** The values the getters of a [Date] can take. *)
Definition timeOfDay (date : Date) : Prop :=
  (getHours date < 24 /\ getMinutes date < 60 /\ getSeconds date < 60)%nat.

(** The character of a decimal digit. *)
Definition digit (k : nat) : ascii := ascii_of_nat (48 + k).

(** ** The audio detector (second StopDetectorPoC component) *)

Module Keyword.
(** An element of [buildStationKeywords]' result. *)
Record t := {
  id : string;
  name : string;
  keywords : list string
}.
End Keyword.

Module Audio.

Definition buildStationKeywords (routeStations : list Station) : list Keyword.t :=
  map (fun s =>
         {| Keyword.id := id s;
            Keyword.name := name s;
            Keyword.keywords :=
              List.filter (fun w => (3 <=? String.length w)%nat)
                     (splitSpaces (toLowerCase (name s))) |})
      routeStations.

(** The inner [for (const kw of s.keywords)] loop: [true] when it reaches
    its [return s]. *)
Fixpoint keywordHit (lower : string) (kws : list string) : bool :=
  match kws with
  | [] => false
  | kw :: r =>
      if (4 <=? String.length kw)%nat && includes lower kw then true
      else keywordHit lower r
  end.

(** The outer loop over the sorted copy. *)
Fixpoint scanStations (lower : string) (l : list Keyword.t) : option Keyword.t :=
  match l with
  | [] => None
  | s :: r =>
      if includes lower (toLowerCase (Keyword.name s)) then Some s
      else if keywordHit lower (Keyword.keywords s) then Some s
      else scanStations lower r
  end.

Definition byNameLengthDesc (a b : Keyword.t) : Z :=
  Z.of_nat (String.length (Keyword.name b))
  - Z.of_nat (String.length (Keyword.name a)).

Definition matchStationInText (text : string) (stationKeywords : list Keyword.t)
  : option Keyword.t :=
  let lower := toLowerCase text in
  scanStations lower (sortBy byNameLengthDesc stationKeywords).

Definition CHIME_LOW_HZ : Z := 800.
Definition CHIME_HIGH_HZ : Z := 2500.
Definition CHIME_THRESHOLD_DB : Q := (-35) # 1.
Definition CHIME_MIN_DURATION_MS : Z := 500.

Inductive Source := speech | chime.

(** The [detail] text of a log entry, kept as the data its template is
    filled with:
    - [Matched name latest]: Matched: "name" from "latest.trim()"
    - [ChimeNo next avgDb]: Chime #next — avg avgDb.toFixed(1) dBFS
    - [ListeningStarted]: Started listening (en-US)
    - [MonitoringStarted]: Started — monitoring 800-2500 Hz > -35 dBFS
    - [MicrophoneError msg]: Microphone error: msg *)
Inductive Detail :=
| Matched (name latest : string)
| ChimeNo (next : nat) (avgDb : Q)
| ListeningStarted
| MonitoringStarted
| MicrophoneError (message : string).

(** [time] keeps the timestamp that the source renders with [formatTime]. *)
Record EventLogEntry := {
  time : Z;
  source : Source;
  detail : Detail
}.

(** The state cells and the refs of the component that the handlers below
    read or write.  [flashTimers] holds the due times of the scheduled
    [setTimeout(() => setChimeDetected(false), 2000)] callbacks. *)
Record State := {
  running : bool;
  routeStations : list Station;
  transcript : string;
  speechMatches : list string;
  speechError : option string;
  chimeLevel : Q;
  chimeDetected : bool;
  chimeCount : nat;
  eventLog : list EventLogEntry;
  stationKeywordsRef : list Keyword.t;
  chimeStartRef : Z;
  chimeActiveRef : bool;
  matchedStationsRef : gset string;
  flashTimers : list Z
}.

Definition setRunning v s := Build_State v (routeStations s) (transcript s) (speechMatches s) (speechError s) (chimeLevel s) (chimeDetected s) (chimeCount s) (eventLog s) (stationKeywordsRef s) (chimeStartRef s) (chimeActiveRef s) (matchedStationsRef s) (flashTimers s).
Definition setRouteStations v s := Build_State (running s) v (transcript s) (speechMatches s) (speechError s) (chimeLevel s) (chimeDetected s) (chimeCount s) (eventLog s) (stationKeywordsRef s) (chimeStartRef s) (chimeActiveRef s) (matchedStationsRef s) (flashTimers s).
Definition setTranscript v s := Build_State (running s) (routeStations s) v (speechMatches s) (speechError s) (chimeLevel s) (chimeDetected s) (chimeCount s) (eventLog s) (stationKeywordsRef s) (chimeStartRef s) (chimeActiveRef s) (matchedStationsRef s) (flashTimers s).
Definition setSpeechMatches v s := Build_State (running s) (routeStations s) (transcript s) v (speechError s) (chimeLevel s) (chimeDetected s) (chimeCount s) (eventLog s) (stationKeywordsRef s) (chimeStartRef s) (chimeActiveRef s) (matchedStationsRef s) (flashTimers s).
Definition setSpeechError v s := Build_State (running s) (routeStations s) (transcript s) (speechMatches s) v (chimeLevel s) (chimeDetected s) (chimeCount s) (eventLog s) (stationKeywordsRef s) (chimeStartRef s) (chimeActiveRef s) (matchedStationsRef s) (flashTimers s).
Definition setChimeLevel v s := Build_State (running s) (routeStations s) (transcript s) (speechMatches s) (speechError s) v (chimeDetected s) (chimeCount s) (eventLog s) (stationKeywordsRef s) (chimeStartRef s) (chimeActiveRef s) (matchedStationsRef s) (flashTimers s).
Definition setChimeDetected v s := Build_State (running s) (routeStations s) (transcript s) (speechMatches s) (speechError s) (chimeLevel s) v (chimeCount s) (eventLog s) (stationKeywordsRef s) (chimeStartRef s) (chimeActiveRef s) (matchedStationsRef s) (flashTimers s).
Definition setChimeCount v s := Build_State (running s) (routeStations s) (transcript s) (speechMatches s) (speechError s) (chimeLevel s) (chimeDetected s) v (eventLog s) (stationKeywordsRef s) (chimeStartRef s) (chimeActiveRef s) (matchedStationsRef s) (flashTimers s).
Definition setEventLog v s := Build_State (running s) (routeStations s) (transcript s) (speechMatches s) (speechError s) (chimeLevel s) (chimeDetected s) (chimeCount s) v (stationKeywordsRef s) (chimeStartRef s) (chimeActiveRef s) (matchedStationsRef s) (flashTimers s).
Definition set_stationKeywordsRef v s := Build_State (running s) (routeStations s) (transcript s) (speechMatches s) (speechError s) (chimeLevel s) (chimeDetected s) (chimeCount s) (eventLog s) v (chimeStartRef s) (chimeActiveRef s) (matchedStationsRef s) (flashTimers s).
Definition set_chimeStartRef v s := Build_State (running s) (routeStations s) (transcript s) (speechMatches s) (speechError s) (chimeLevel s) (chimeDetected s) (chimeCount s) (eventLog s) (stationKeywordsRef s) v (chimeActiveRef s) (matchedStationsRef s) (flashTimers s).
Definition set_chimeActiveRef v s := Build_State (running s) (routeStations s) (transcript s) (speechMatches s) (speechError s) (chimeLevel s) (chimeDetected s) (chimeCount s) (eventLog s) (stationKeywordsRef s) (chimeStartRef s) v (matchedStationsRef s) (flashTimers s).
Definition set_matchedStationsRef v s := Build_State (running s) (routeStations s) (transcript s) (speechMatches s) (speechError s) (chimeLevel s) (chimeDetected s) (chimeCount s) (eventLog s) (stationKeywordsRef s) (chimeStartRef s) (chimeActiveRef s) v (flashTimers s).
Definition set_flashTimers v s := Build_State (running s) (routeStations s) (transcript s) (speechMatches s) (speechError s) (chimeLevel s) (chimeDetected s) (chimeCount s) (eventLog s) (stationKeywordsRef s) (chimeStartRef s) (chimeActiveRef s) (matchedStationsRef s) v.

(** The component as first rendered. *)
Definition mounted : State := {|
  running := false; routeStations := []; transcript := EmptyString;
  speechMatches := []; speechError := None; chimeLevel := (-100) # 1;
  chimeDetected := false; chimeCount := 0%nat; eventLog := [];
  stationKeywordsRef := []; chimeStartRef := 0; chimeActiveRef := false;
  matchedStationsRef := ∅; flashTimers := []
|}.

(** [addEvent]; [now] is the [new Date()] it stamps the entry with. *)
Definition addEvent (now : Z) (src : Source) (d : Detail) (st : State) : State :=
  setEventLog (eventLog st ++ [{| time := now; source := src; detail := d |}]) st.

(** A [SpeechRecognitionEvent]: the first transcript of each result, the
    list being non-empty, and the time at which it is handled. *)
Record SpeechRecognitionEvent := {
  earlier : list string;
  latest : string;
  heardAt : Z
}.

(** [recognition.onresult]. *)
Definition onresult (st : State) (event : SpeechRecognitionEvent) : State :=
  let fullTranscript :=
    fold_left (fun acc r => (acc ++ r)%string) (earlier event ++ [latest event])
              EmptyString in
  let st := setTranscript fullTranscript st in
  let latest := latest event in
  match matchStationInText latest (stationKeywordsRef st) with
  | Some found =>
      if negb (bool_decide (Keyword.id found ∈ matchedStationsRef st)) then
        let st := set_matchedStationsRef
                    ({[Keyword.id found]} ∪ matchedStationsRef st) st in
        let st := setSpeechMatches (speechMatches st ++ [Keyword.id found]) st in
        addEvent (heardAt event) speech (Matched (Keyword.name found) latest) st
      else st
  | None => st
  end.

(** The gating part of [tick] (from [setChimeLevel] on); [avgDb] is the
    band average computed just before and [now] the [Date.now()] read. *)
Definition tick (st : State) (now : Z) (avgDb : Q) : State :=
  let st := setChimeLevel avgDb st in
  if Qlt_bool CHIME_THRESHOLD_DB avgDb then
    if negb (chimeActiveRef st) then
      let st := set_chimeStartRef now st in
      set_chimeActiveRef true st
    else if CHIME_MIN_DURATION_MS <=? now - chimeStartRef st then
      let st := setChimeDetected true st in
      let next := S (chimeCount st) in
      let st := addEvent now chime (ChimeNo next avgDb) st in
      let st := setChimeCount next st in
      let st := set_chimeActiveRef false st in
      set_flashTimers (flashTimers st ++ [now + 2000]) st
    else st
  else set_chimeActiveRef false st.

(** The callback of the oldest scheduled timer runs. *)
Definition flashTimeout (st : State) : State :=
  match flashTimers st with
  | [] => st
  | _ :: rest => set_flashTimers rest (setChimeDetected false st)
  end.

Section Session.

Variable stations : list Station.

(** [handleStart], with [startSpeechRecognition] and [startChimeDetection]
    inlined.  [speechSupported] tells whether the browser has a
    recognition constructor and [microphone] is [None] when
    [getUserMedia] succeeds and the error message otherwise. *)
Definition handleStart (selectedLine : LineId) (originId destinationId : string)
  (speechSupported : bool) (microphone : option string) (now : Z) (st : State)
  : State :=
  if String.eqb originId EmptyString || String.eqb destinationId EmptyString
     || String.eqb originId destinationId
  then st
  else
    let route := getStationsOnRoute stations selectedLine originId destinationId in
    let st := setRouteStations route st in
    let st := set_stationKeywordsRef (buildStationKeywords route) st in
    let st := set_matchedStationsRef ∅ st in
    let st := setEventLog [] st in
    let st := setTranscript EmptyString st in
    let st := setSpeechMatches [] st in
    let st := setSpeechError None st in
    let st := setChimeLevel ((-100) # 1) st in
    let st := setChimeDetected false st in
    let st := setChimeCount 0%nat st in
    let st := setRunning true st in
    let st :=
      if speechSupported then addEvent now speech ListeningStarted st
      else setSpeechError
             (Some "SpeechRecognition not supported in this browser"%string) st in
    match microphone with
    | None => addEvent now chime MonitoringStarted st
    | Some message => addEvent now chime (MicrophoneError message) st
    end.

Definition handleStop (st : State) : State := setRunning false st.

(** Everything that can reach the component, in any order. *)
Inductive Input :=
| PressStart (selectedLine : LineId) (originId destinationId : string)
             (speechSupported : bool) (microphone : option string) (now : Z)
| PressStop
| Result (event : SpeechRecognitionEvent)
| Frame (now : Z) (avgDb : Q)
| Timeout.

(** Frames are handled in the order of their clock readings: the input
    is a frame no earlier than [t], or not a frame at all. *)
Definition since (t : Z) (i : Input) : bool :=
  match i with
  | Frame now _ => t <=? now
  | _ => true
  end.

Definition react (st : State) (i : Input) : State :=
  match i with
  | PressStart l o d sup mic now => handleStart l o d sup mic now st
  | PressStop => handleStop st
  | Result event => onresult st event
  | Frame now avgDb => tick st now avgDb
  | Timeout => flashTimeout st
  end.

End Session.

(** The list of speech matches has no repetition and is covered by the
    set of matched station ids. *)
Definition recorded (st : State) : Prop :=
  List.NoDup (speechMatches st)
  /\ forall x, In x (speechMatches st) -> x ∈ matchedStationsRef st.

(** A run of animation frames, each with its clock reading and band
    average. *)
Definition frames (st : State) (l : list (Z * Q)) : State :=
  fold_left (fun s f => tick s (fst f) (snd f)) l st.

(** Whether the frame handled in [st] reaches the branch that counts and
    logs a chime. *)
Definition emits (st : State) (now : Z) (avgDb : Q) : bool :=
  Qlt_bool CHIME_THRESHOLD_DB avgDb && chimeActiveRef st
  && (CHIME_MIN_DURATION_MS <=? now - chimeStartRef st).

Definition onRoute (st : State) : Prop :=
  stationKeywordsRef st = buildStationKeywords (routeStations st)
  /\ forall x, In x (speechMatches st) -> In x (map id (routeStations st)).

(** The loop of [tick] over the bins of the band (source lines 505-510):
    [i] is the loop variable and [rest] holds [freqData[i]], [freqData[i+1]],
    ... so that the loop ends when [rest] is exhausted or [i] passes
    [highBin]. *)
Fixpoint bandLoop (highBin i : nat) (rest : list Q) (sum : Q) (count : nat)
  : Q * nat :=
  match rest with
  | [] => (sum, count)
  | x :: r =>
      if (i <=? highBin)%nat
      then bandLoop highBin (S i) r (Qplus sum x) (S count)
      else (sum, count)
  end.

(** [avgDb]: the mean of the bins [lowBin .. highBin] that exist, or -100
    when there is none. *)
Definition bandAverage (freqData : list Q) (lowBin highBin : nat) : Q :=
  let (sum, count) := bandLoop highBin lowBin (skipn lowBin freqData) 0%Q 0%nat in
  if (0 <? count)%nat then Qdiv sum (inject_Z (Z.of_nat count)) else (-100) # 1.

(** The whole of [tick]: the band average of the analyser's data, then the
    gate. *)
Definition tickOn (freqData : list Q) (lowBin highBin : nat) (st : State) (now : Z)
  : State :=
  tick st now (bandAverage freqData lowBin highBin).

(** The analyser of [startChimeDetection] (source lines 489-499): an FFT
    of 2048 points, hence 1024 frequency bins, each [binSize] Hz wide;
    the band of the chime starts in bin [lowBin] and ends in bin
    [highBin]. *)
Definition fftSize : Z := 2048.

Definition frequencyBinCount : nat := Z.to_nat (fftSize / 2).

Definition binSize (sampleRate : Q) : Q := sampleRate / inject_Z fftSize.

Definition lowBin (sampleRate : Q) : Z :=
  Qfloor (inject_Z CHIME_LOW_HZ / binSize sampleRate).

Definition highBin (sampleRate : Q) : Z :=
  Qceiling (inject_Z CHIME_HIGH_HZ / binSize sampleRate).

End Audio.

(** ** Concrete sessions used by the examples *)

Module Scenario.

(** Five consecutive stations of the blue line, as a stand-in for the
    station table. *)
Definition blueLine : list Station := [
  {| id := "BL11"; name := "Bang Sue"; line := mrt_blue; lat := 13803 # 1000; lng := 100540 # 1000 |};
  {| id := "BL10"; name := "Tao Poon"; line := mrt_blue; lat := 13806 # 1000; lng := 100531 # 1000 |};
  {| id := "BL09"; name := "Bang Pho"; line := mrt_blue; lat := 13806 # 1000; lng := 100521 # 1000 |};
  {| id := "BL08"; name := "Bang O"; line := mrt_blue; lat := 13799 # 1000; lng := 100510 # 1000 |};
  {| id := "BL07"; name := "Bang Phlat"; line := mrt_blue; lat := 13792 # 1000; lng := 100505 # 1000 |}
]%string.

Definition t0 : Z := 1767225600000.

(** A device at rest reads the gravity magnitude, about 10; single
    readings of 16 and 15 are jolts.  One reading every [period] ms. *)
Definition reading (jolts16 jolts15 : list nat) (period : Z) (i : nat)
  : Motion.DeviceMotionEvent :=
  {| Motion.magnitude :=
       Some (if existsb (Nat.eqb i) jolts16 then 16 # 1
             else if existsb (Nat.eqb i) jolts15 then 15 # 1
             else 10 # 1)%Q;
     Motion.clock := t0 + period * Z.of_nat i |}.

Definition startJourney : Motion.Input :=
  Motion.PressStart mrt_blue "BL11" "BL07" true t0.

Definition session (events : list Motion.DeviceMotionEvent) : Motion.State :=
  fold_left (Motion.react blueLine) (startJourney :: map Motion.Sensor events)
            Motion.mounted.

(** Readings at 20 Hz with a jolt at reading 10: the window is full at
    reading 60, the detector is [moving] at reading 69, the jolt leaves
    the window at reading 70 and three quiet windows have been counted
    when reading 73, a smaller jolt, arrives. *)
Definition joltRun (n : nat) : list Motion.DeviceMotionEvent :=
  map (reading [10%nat] [73%nat] 50) (seq 1 n).

(** One reading every 700 ms with jolts at readings 10 and 100: a first
    stop begins at reading 77 and is confirmed at reading 99, a second
    stop begins at reading 167 and is evaluated at reading 189. *)
Definition twoStops (n : nat) : list Motion.DeviceMotionEvent :=
  map (reading [10%nat; 100%nat] [] 700) (seq 1 n).

(** Band energy held at -20 dBFS over four animation frames. *)
Definition loudFrames : list (Z * Q) :=
  map (fun t => (t, (-20) # 1)) [t0; t0 + 500; t0 + 516; t0 + 1016].

Definition blueKeywords : list Keyword.t := Audio.buildStationKeywords blueLine.

Definition startListening : Audio.Input :=
  Audio.PressStart mrt_blue "BL11" "BL07" true None t0.

Definition listen (inputs : list Audio.Input) : Audio.State :=
  fold_left (Audio.react blueLine) (startListening :: inputs) Audio.mounted.

Definition announcement (text : string) (at_ : Z) : Audio.Input :=
  Audio.Result {| Audio.earlier := []; Audio.latest := text; Audio.heardAt := at_ |}.


End Scenario.

(** * Properties *)

(** ** Arrays *)

Section ArrayFacts.

Context {A : Type}.
Implicit Types (p : A -> bool) (l : list A).

Lemma findIndex_range p l : -1 <= findIndex p l < Z.of_nat (length l).
Proof.
  induction l as [|x r IH]; cbn [findIndex length].
  - lia.
  - destruct (p x); [lia|].
    destruct (findIndex p r <? 0) eqn:E; lia.
Qed.

Lemma findIndex_absent p l :
  findIndex p l = -1 <-> forall x, In x l -> p x = false.
Proof.
  induction l as [|x r IH]; cbn [findIndex In].
  - split; [intros _ y []|reflexivity].
  - destruct (p x) eqn:Px.
    + split; [discriminate|]. intros H. specialize (H x (or_introl eq_refl)).
      congruence.
    + pose proof (findIndex_range p r) as R.
      destruct (findIndex p r <? 0) eqn:E.
      * apply Z.ltb_lt in E. assert (F : findIndex p r = -1) by lia.
        split; [|reflexivity]. intros _ y [<-|Hy]; [exact Px|].
        now apply (proj1 IH F).
      * apply Z.ltb_ge in E. split; [lia|]. intros H.
        assert (F : findIndex p r = -1) by (apply IH; intros; apply H; now right).
        lia.
Qed.

(** A found index designates the first element that satisfies [p], which
    is also what [find] returns. *)
Lemma findIndex_found p l :
  0 <= findIndex p l ->
  exists x, nth_error l (Z.to_nat (findIndex p l)) = Some x
            /\ p x = true /\ find p l = Some x.
Proof.
  induction l as [|x r IH]; cbn [findIndex find]; [lia|].
  destruct (p x) eqn:Px.
  - intros _. exists x. now cbn.
  - destruct (findIndex p r <? 0) eqn:E; [lia|]. apply Z.ltb_ge in E.
    intros _. destruct (IH E) as (y & Hn & Hp & Hf). exists y.
    replace (Z.to_nat (findIndex p r + 1)) with (S (Z.to_nat (findIndex p r)))
      by lia.
    now cbn.
Qed.

Lemma slice_in_range l a b :
  0 <= a -> a <= b -> b <= Z.of_nat (length l) ->
  slice l a b = firstn (Z.to_nat (b - a)) (skipn (Z.to_nat a) l).
Proof.
  intros Ha Hab Hb. unfold slice.
  destruct (a <? 0) eqn:E1; [apply Z.ltb_lt in E1; lia|].
  destruct (b <? 0) eqn:E2; [apply Z.ltb_lt in E2; lia|].
  now rewrite !Z.min_l by lia.
Qed.

(** The part of [l] from position [i] to position [j], both included,
    splits [l] and has the elements at [i] and [j] at its ends. *)
Lemma slice_between l (i j : nat) x y :
  (i <= j)%nat -> nth_error l i = Some x -> nth_error l j = Some y ->
  exists pre post,
    l = pre ++ slice l (Z.of_nat i) (Z.of_nat j + 1) ++ post
    /\ length pre = i
    /\ hd_error (slice l (Z.of_nat i) (Z.of_nat j + 1)) = Some x
    /\ hd_error (rev (slice l (Z.of_nat i) (Z.of_nat j + 1))) = Some y.
Proof.
  intros Hij Hx Hy.
  assert (Hj : (j < length l)%nat) by (apply nth_error_Some; congruence).
  rewrite slice_in_range by lia.
  replace (Z.to_nat (Z.of_nat j + 1 - Z.of_nat i)) with (S (j - i)) by lia.
  rewrite Nat2Z.id.
  exists (firstn i l), (skipn (S (j - i)) (skipn i l)).
  repeat split.
  - now rewrite firstn_skipn, firstn_skipn.
  - rewrite length_firstn. lia.
  - destruct (skipn i l) as [|z r] eqn:E.
    + assert (length (skipn i l) = 0%nat) by now rewrite E.
      rewrite length_skipn in H. lia.
    + pose proof (nth_error_skipn i l 0) as H0.
      rewrite E, Nat.add_0_r, Hx in H0. cbn in H0. cbn. exact H0.
  - assert (Hl : length (firstn (S (j - i)) (skipn i l)) = S (j - i)).
    { rewrite length_firstn, length_skipn. lia. }
    assert (Hn : nth_error (firstn (S (j - i)) (skipn i l)) (j - i) = Some y).
    { rewrite nth_error_firstn.
      destruct (Nat.ltb_spec (j - i) (S (j - i))); [|lia].
      rewrite nth_error_skipn. replace (i + (j - i))%nat with j by lia.
      exact Hy. }
    destruct (rev (firstn (S (j - i)) (skipn i l))) as [|z r] eqn:E.
    + apply (f_equal (@length A)) in E. rewrite length_rev, Hl in E.
      discriminate.
    + cbn. pose proof (f_equal (@rev A) E) as E'. rewrite rev_involutive in E'.
      rewrite E' in Hn, Hl. cbn in Hn, Hl.
      rewrite length_app in Hl. cbn in Hl.
      rewrite nth_error_app2 in Hn by lia.
      replace (j - i - length (rev r))%nat with 0%nat in Hn by lia.
      cbn in Hn. exact Hn.
Qed.

End ArrayFacts.

(** ** Route construction *)

Lemma findIndex_of_member (l : list Station) (wanted : string) :
  (exists s, In s l /\ id s = wanted) ->
  exists s, nth_error l (Z.to_nat (findIndex (fun s => String.eqb (id s) wanted) l))
            = Some s
            /\ id s = wanted
            /\ find (fun s => String.eqb (id s) wanted) l = Some s
            /\ 0 <= findIndex (fun s => String.eqb (id s) wanted) l.
Proof.
  intros (s & Hin & Hid).
  pose proof (findIndex_range (fun s => String.eqb (id s) wanted) l) as R.
  assert (N : findIndex (fun s => String.eqb (id s) wanted) l <> -1).
  { intros F. apply (proj1 (findIndex_absent _ _)) with (x := s) in F; [|exact Hin].
    rewrite Hid, String.eqb_refl in F. discriminate. }
  destruct (findIndex_found (fun s => String.eqb (id s) wanted) l) as (x & Hn & Hp & Hf);
    [lia|].
  exists x. apply String.eqb_eq in Hp. repeat split; auto; lia.
Qed.

(** C7. For two distinct station ids that both occur on the line, the
    route is not empty, begins with the origin station and ends with the
    destination station; it is a stretch of the line in line order when the
    origin comes first and the reverse of such a stretch when the
    destination comes first.  When one of the ids does not occur on the
    line the route is empty. *)
Theorem getStationsOnRoute_direction
  (stations : list Station) (lineId : LineId) (originId destinationId : string) :
  let lineStations := List.filter (fun s => LineId_eqb (line s) lineId) stations in
  let originIdx := findIndex (fun s => String.eqb (id s) originId) lineStations in
  let destIdx := findIndex (fun s => String.eqb (id s) destinationId) lineStations in
  let route := getStationsOnRoute stations lineId originId destinationId in
  (originId <> destinationId ->
   (exists o, In o lineStations /\ id o = originId) ->
   (exists d, In d lineStations /\ id d = destinationId) ->
   exists o d,
     find (fun s => String.eqb (id s) originId) lineStations = Some o
     /\ find (fun s => String.eqb (id s) destinationId) lineStations = Some d
     /\ id o = originId /\ id d = destinationId
     /\ route <> []
     /\ hd_error route = Some o
     /\ hd_error (rev route) = Some d
     /\ originIdx <> destIdx
     /\ (originIdx < destIdx ->
         exists pre post, lineStations = pre ++ route ++ post
                          /\ Z.of_nat (length pre) = originIdx)
     /\ (destIdx < originIdx ->
         exists pre post, lineStations = pre ++ rev route ++ post
                          /\ Z.of_nat (length pre) = destIdx))
  /\ ((forall s, In s lineStations -> id s <> originId)
      \/ (forall s, In s lineStations -> id s <> destinationId) ->
      route = []).
Proof.
  intros lineStations originIdx destIdx route. split.
  - intros Hne Ho Hd.
    destruct (findIndex_of_member lineStations originId Ho) as (o & Hno & Hio & Hfo & Hpo).
    destruct (findIndex_of_member lineStations destinationId Hd) as (d & Hnd & Hid & Hfd & Hpd).
    fold originIdx in Hno, Hpo. fold destIdx in Hnd, Hpd.
    assert (Hdiff : originIdx <> destIdx).
    { intros E. rewrite E in Hno. congruence. }
    exists o, d. do 4 (split; [assumption|]).
    assert (Hroute : route =
                     if originIdx <? destIdx
                     then slice lineStations originIdx (destIdx + 1)
                     else rev (slice lineStations destIdx (originIdx + 1))).
    { unfold route, getStationsOnRoute. fold lineStations originIdx destIdx.
      destruct (originIdx =? -1) eqn:E1; [apply Z.eqb_eq in E1; lia|].
      destruct (destIdx =? -1) eqn:E2; [apply Z.eqb_eq in E2; lia|].
      reflexivity. }
    destruct (originIdx <? destIdx) eqn:Cmp.
    + apply Z.ltb_lt in Cmp.
      destruct (slice_between lineStations (Z.to_nat originIdx) (Z.to_nat destIdx) o d)
        as (pre & post & Hsplit & Hlen & Hhd & Hlast); [lia|assumption|assumption|].
      rewrite !Z2Nat.id in * by lia. rewrite <- Hroute in *.
      repeat split; try assumption.
      * intros E. rewrite E in Hhd. discriminate.
      * intros _. exists pre, post. split; [assumption|lia].
      * intros. lia.
    + apply Z.ltb_ge in Cmp.
      destruct (slice_between lineStations (Z.to_nat destIdx) (Z.to_nat originIdx) d o)
        as (pre & post & Hsplit & Hlen & Hhd & Hlast); [lia|assumption|assumption|].
      rewrite !Z2Nat.id in * by lia.
      assert (Hrev : rev route = slice lineStations destIdx (originIdx + 1))
        by (rewrite Hroute; apply rev_involutive).
      rewrite <- Hroute in Hlast. rewrite <- Hrev in Hsplit, Hhd.
      repeat split; try assumption.
      * intros E. rewrite E in Hlast. discriminate.
      * intros. lia.
      * intros _. exists pre, post. split; [assumption|lia].
  - intros H. unfold route, getStationsOnRoute. fold lineStations originIdx destIdx.
    assert (E : originIdx = -1 \/ destIdx = -1).
    { destruct H as [H|H]; [left|right]; apply findIndex_absent; intros x Hx;
        apply String.eqb_neq; now apply H. }
    destruct E as [E|E]; rewrite E; [reflexivity|].
    now rewrite orb_true_r.
Qed.

(** ** The motion detector *)

Section MotionFacts.

Import Motion.

Lemma Qlt_bool_iff x y : Qlt_bool x y = true <-> Qlt x y.
Proof. unfold Qlt_bool, Qlt. apply Z.ltb_lt. Qed.

Lemma confirmStop_keeps now st :
  stateRef (confirmStop now st) = stateRef st
  /\ motionState (confirmStop now st) = motionState st
  /\ stateCounterRef (confirmStop now st) = stateCounterRef st
  /\ bufferRef (confirmStop now st) = bufferRef st
  /\ variance (confirmStop now st) = variance st
  /\ routeRef (confirmStop now st) = routeRef st
  /\ pendingStopRef (confirmStop now st) = false.
Proof.
  unfold confirmStop.
  destruct (_ && _); cbn; repeat split.
Qed.

Lemma trackSampleRate_machine now st :
  machine (trackSampleRate now st) = machine st
  /\ bufferRef (trackSampleRate now st) = bufferRef st
  /\ variance (trackSampleRate now st) = variance st
  /\ routeRef (trackSampleRate now st) = routeRef st.
Proof. unfold trackSampleRate. cbn. destruct (_ <=? _); cbn; repeat split. Qed.

Lemma classify_buffer now v st :
  bufferRef (classify now v st) = bufferRef st
  /\ variance (classify now v st) = variance st
  /\ routeRef (classify now v st) = routeRef st.
Proof.
  unfold classify.
  repeat match goal with
         | |- context [if ?c then _ else _] => destruct c; cbn
         end;
  rewrite ?(proj1 (proj2 (proj2 (proj2 (confirmStop_keeps _ _))))),
    ?(proj1 (proj2 (proj2 (proj2 (proj2 (confirmStop_keeps _ _)))))),
    ?(proj1 (proj2 (proj2 (proj2 (proj2 (proj2 (confirmStop_keeps _ _))))))); cbn;
  repeat split.
Qed.

Lemma classify_in_gap now v st :
  Qlt_bool v STOP_THRESHOLD = false -> Qlt_bool MOVE_THRESHOLD v = false ->
  classify now v st = st.
Proof. intros H1 H2. unfold classify. now rewrite H1, H2. Qed.

Lemma classify_stateRef now v st :
  (stateRef (classify now v st) = stateRef st
   \/ stateRef (classify now v st) = stopped
   \/ stateRef (classify now v st) = moving)
  /\ (motionState (classify now v st) = motionState st
      \/ motionState (classify now v st) = stopped
      \/ motionState (classify now v st) = moving).
Proof.
  unfold classify.
  repeat match goal with
         | |- context [if ?c then _ else _] => destruct c; cbn
         end;
  rewrite ?(proj1 (confirmStop_keeps _ _)), ?(proj1 (proj2 (confirmStop_keeps _ _)));
  cbn; auto.
Qed.

(** The shape of [handleMotion] on a well-formed reading: the reading is
    buffered without touching the verdict cells; the state machine runs
    only when the window is full. *)
Lemma handleMotion_reading st ev m :
  magnitude ev = Some m ->
  exists st1,
    machine st1 = machine st
    /\ routeRef st1 = routeRef st
    /\ bufferRef st1 = window (bufferRef st) m
    /\ ((length (window (bufferRef st) m) < WINDOW_SIZE)%nat ->
        variance st1 = variance st /\ handleMotion st ev = st1)
    /\ ((WINDOW_SIZE <= length (window (bufferRef st) m))%nat ->
        variance st1 = varianceOf (window (bufferRef st) m)
        /\ handleMotion st ev
           = classify (clock ev) (varianceOf (window (bufferRef st) m)) st1).
Proof.
  intros Hm. unfold handleMotion. rewrite Hm. cbv zeta.
  set (s1 := trackSampleRate (clock ev) (set_bufferRef (bufferRef st ++ [m]) st)).
  assert (B1 : bufferRef s1 = bufferRef st ++ [m])
    by (unfold s1; rewrite (proj1 (proj2 (trackSampleRate_machine _ _))); reflexivity).
  assert (M1 : machine s1 = machine st)
    by (unfold s1; rewrite (proj1 (trackSampleRate_machine _ _)); reflexivity).
  assert (V1 : variance s1 = variance st)
    by (unfold s1; rewrite (proj1 (proj2 (proj2 (trackSampleRate_machine _ _)))); reflexivity).
  assert (R1 : routeRef s1 = routeRef st)
    by (unfold s1; rewrite (proj2 (proj2 (proj2 (trackSampleRate_machine _ _)))); reflexivity).
  assert (W : window (bufferRef st) m
              = if (WINDOW_SIZE <? length (bufferRef s1))%nat
                then tl (bufferRef s1) else bufferRef s1)
    by (unfold window; cbv zeta; now rewrite B1).
  destruct (WINDOW_SIZE <? length (bufferRef s1))%nat.
  2: { rewrite <- W.
       destruct (Nat.ltb_spec (length (window (bufferRef st) m)) WINDOW_SIZE) as [L|L].
       - exists s1. split; [exact M1|]. split; [exact R1|]. split; [now rewrite W|].
         split; [intros _; now split | intros; lia].
       - exists (setVariance (varianceOf (window (bufferRef st) m)) s1).
         split; [exact M1|]. split; [exact R1|]. split; [now rewrite W|].
         split; [intros; lia | intros _; now split]. }
  cbn [bufferRef set_bufferRef]. rewrite <- W.
  destruct (Nat.ltb_spec (length (window (bufferRef st) m)) WINDOW_SIZE) as [L|L].
  - exists (set_bufferRef (window (bufferRef st) m) s1).
    split; [exact M1|]. split; [exact R1|]. split; [reflexivity|].
    split; [intros _; now split | intros; lia].
  - exists (setVariance (varianceOf (window (bufferRef st) m))
                        (set_bufferRef (window (bufferRef st) m) s1)).
    split; [exact M1|]. split; [exact R1|]. split; [reflexivity|].
    split; [intros; lia | intros _; now split].
Qed.

Lemma window_short (buffer : list Q) m :
  (length buffer < WINDOW_SIZE)%nat ->
  window buffer m = buffer ++ [m].
Proof.
  intros H. unfold window. cbv zeta.
  destruct (Nat.ltb_spec WINDOW_SIZE (length (buffer ++ [m]))) as [L|L];
    [|reflexivity].
  rewrite length_app in L. cbn in L. lia.
Qed.

Lemma feed_warmup events : forall st,
  (length (bufferRef st) + length events < WINDOW_SIZE)%nat ->
  machine (feed st events) = machine st
  /\ variance (feed st events) = variance st
  /\ bufferRef (feed st events) = bufferRef st ++ omap magnitude events.
Proof.
  induction events as [|ev events IH]; intros st H.
  - cbn. now rewrite app_nil_r.
  - cbn [length] in H. cbn [feed fold_left]. fold (feed (handleMotion st ev) events).
    destruct (magnitude ev) as [m|] eqn:Hm.
    + destruct (handleMotion_reading st ev m Hm) as (st1 & M & _ & B & Short & _).
      rewrite window_short in B, Short by lia.
      destruct Short as [V E].
      { rewrite length_app. cbn. lia. }
      rewrite E.
      destruct (IH st1) as (M' & V' & B').
      { rewrite B, length_app. cbn. lia. }
      rewrite M', V', B', M, V, B.
      repeat split. cbn. rewrite Hm. now rewrite <- app_assoc.
    + assert (E : handleMotion st ev = st) by (unfold handleMotion; now rewrite Hm).
      rewrite E. destruct (IH st) as (M' & V' & B'); [lia|].
      repeat split; auto. rewrite B'. cbn. now rewrite Hm.
Qed.

Lemma handleStart_started stations l o d now st0 :
  o <> EmptyString -> d <> EmptyString -> o <> d ->
  let st := handleStart stations l o d true now st0 in
  machine st = (idle, idle, 0%nat, false, 0, 0, 0%nat, [], 0%nat)
  /\ variance st = 0%Q /\ bufferRef st = [] /\ running st = true
  /\ routeRef st = getStationsOnRoute stations l o d.
Proof.
  intros Ho Hd Hod. unfold handleStart.
  apply String.eqb_neq in Ho, Hd, Hod. rewrite Ho, Hd, Hod. cbn.
  repeat split.
Qed.

(** C3. From the start of a journey, a stream of fewer than [WINDOW_SIZE]
    events leaves the detector idle: no transition, the displayed variance
    still at its reset value, nothing detected or ignored, no counter
    moved; the well-formed readings are in the buffer, in order. *)
Theorem warmup_buffers_only
  (stations : list Station) (selectedLine : LineId)
  (originId destinationId : string) (now : Z) (st0 : State)
  (events : list DeviceMotionEvent) :
  originId <> EmptyString -> destinationId <> EmptyString ->
  originId <> destinationId ->
  (length events < WINDOW_SIZE)%nat ->
  let st := feed (handleStart stations selectedLine originId destinationId
                              true now st0) events in
  stateRef st = idle /\ motionState st = idle
  /\ variance st = 0%Q
  /\ detectedStops st = [] /\ ignoredStops st = 0%nat
  /\ stopCountRef st = 0%nat /\ stateCounterRef st = 0%nat
  /\ pendingStopRef st = false
  /\ bufferRef st = omap magnitude events.
Proof.
  intros Ho Hd Hod Hlen st.
  destruct (handleStart_started stations selectedLine originId destinationId
              now st0 Ho Hd Hod) as (M & V & B & _).
  destruct (feed_warmup events
              (handleStart stations selectedLine originId destinationId true now st0))
    as (M' & V' & B').
  { rewrite B. cbn. lia. }
  subst st. rewrite M in M'. rewrite V in V'. rewrite B in B'.
  unfold machine in M'.
  injection M' as E1 E2 E3 E4 E5 E6 E7 E8 E9.
  repeat split; assumption.
Qed.

Lemma handleMotion_stateRef st ev :
  (stateRef (handleMotion st ev) = stateRef st
   \/ stateRef (handleMotion st ev) = stopped
   \/ stateRef (handleMotion st ev) = moving)
  /\ (motionState (handleMotion st ev) = motionState st
      \/ motionState (handleMotion st ev) = stopped
      \/ motionState (handleMotion st ev) = moving).
Proof.
  destruct (magnitude ev) as [m|] eqn:Hm.
  - destruct (handleMotion_reading st ev m Hm) as (st1 & M & _ & _ & Short & Full).
    unfold machine in M. injection M as S1 S2 _ _ _ _ _ _ _.
    destruct (Nat.ltb_spec (length (window (bufferRef st) m)) WINDOW_SIZE) as [L|L].
    + destruct (Short L) as [_ E]. rewrite E, S1, S2. auto.
    + destruct (Full L) as [_ E]. rewrite E, <- S1, <- S2. apply classify_stateRef.
  - unfold handleMotion. rewrite Hm. auto.
Qed.

(** C10. Sensor events never bring the detector back to [idle]: a handled
    event leaves [stateRef] as it was or sets it to [stopped] or [moving],
    so once [stateRef] (or the displayed state) differs from [idle] it
    does so after any further stream of events.  [idle] comes back with the
    buttons: a started journey resets both cells to [idle], and the stop
    button resets the displayed state. *)
Theorem motion_never_returns_to_idle
  (stations : list Station) (st : State) (events : list DeviceMotionEvent) :
  (stateRef st <> idle -> stateRef (feed st events) <> idle)
  /\ (motionState st <> idle -> motionState (feed st events) <> idle)
  /\ (forall ev,
        stateRef (handleMotion st ev) = stateRef st
        \/ stateRef (handleMotion st ev) = stopped
        \/ stateRef (handleMotion st ev) = moving)
  /\ motionState (handleStop st) = idle
  /\ (forall selectedLine originId destinationId now,
        originId <> EmptyString -> destinationId <> EmptyString ->
        originId <> destinationId ->
        stateRef (handleStart stations selectedLine originId destinationId
                              true now st) = idle
        /\ motionState (handleStart stations selectedLine originId destinationId
                                    true now st) = idle).
Proof.
  split; [|split; [|split; [|split]]].
  - revert st. induction events as [|ev events IH]; intros st; [now cbn|].
    cbn [feed fold_left]. fold (feed (handleMotion st ev) events).
    destruct (handleMotion_stateRef st ev) as [[R|[R|R]] _];
      intros H; apply IH; rewrite R; congruence.
  - revert st. induction events as [|ev events IH]; intros st; [now cbn|].
    cbn [feed fold_left]. fold (feed (handleMotion st ev) events).
    destruct (handleMotion_stateRef st ev) as [_ [D|[D|D]]];
      intros H; apply IH; rewrite D; congruence.
  - intros ev. apply handleMotion_stateRef.
  - reflexivity.
  - intros l o d now Ho Hd Hod.
    destruct (handleStart_started stations l o d now st Ho Hd Hod) as (M & _).
    unfold machine in M. injection M as E1 E2 _ _ _ _ _ _ _. now split.
Qed.

(** C2, as amended. A reading whose full window has a variance strictly
    between [STOP_THRESHOLD] and [MOVE_THRESHOLD] makes no transition and
    leaves the candidate counter, like every other verdict cell, as it was:
    the counter is not reset. *)
Theorem hysteresis_gap_keeps_state (st : State) (ev : DeviceMotionEvent) :
  let st' := handleMotion st ev in
  magnitude ev <> None ->
  (WINDOW_SIZE <= length (bufferRef st'))%nat ->
  Qlt STOP_THRESHOLD (varianceOf (bufferRef st')) ->
  Qlt (varianceOf (bufferRef st')) MOVE_THRESHOLD ->
  stateRef st' = stateRef st /\ motionState st' = motionState st
  /\ stateCounterRef st' = stateCounterRef st
  /\ machine st' = machine st
  /\ variance st' = varianceOf (bufferRef st').
Proof.
  intros st' Hm. destruct (magnitude ev) as [m|] eqn:Em; [clear Hm|congruence].
  destruct (handleMotion_reading st ev m Em) as (st1 & M & _ & B & Short & Full).
  assert (Bw : bufferRef st' = window (bufferRef st) m).
  { subst st'.
    destruct (Nat.ltb_spec (length (window (bufferRef st) m)) WINDOW_SIZE) as [L|L].
    - destruct (Short L) as [_ E]. now rewrite E.
    - destruct (Full L) as [_ E]. rewrite E.
      now rewrite (proj1 (classify_buffer _ _ _)). }
  rewrite Bw. intros Hlen Hlo Hhi.
  destruct (Full Hlen) as [V E]. subst st'. rewrite E.
  rewrite classify_in_gap.
  - unfold machine in M. injection M as S1 S2 S3 S4 S5 S6 S7 S8 S9.
    unfold machine. rewrite S1, S2, S3, S4, S5, S6, S7, S8, S9. repeat split. exact V.
  - destruct (Qlt_bool _ STOP_THRESHOLD) eqn:F; [|reflexivity].
    apply Qlt_bool_iff in F. exfalso. exact (Qlt_irrefl _ (Qlt_trans _ _ _ F Hlo)).
  - destruct (Qlt_bool MOVE_THRESHOLD _) eqn:F; [|reflexivity].
    apply Qlt_bool_iff in F. exfalso. exact (Qlt_irrefl _ (Qlt_trans _ _ _ F Hhi)).
Qed.

(** C2, counterexample. Reading 73 of the jolt session meets the detector
    in state [moving] with three quiet windows counted towards a stop; its
    window has variance 59/144, inside the gap, and the counter is still
    three afterwards. *)
Lemma hysteresis_gap_keeps_counter :
  let st := Scenario.session (Scenario.joltRun 72) in
  let ev := Scenario.reading [10%nat] [73%nat] 50 73 in
  let st' := handleMotion st ev in
  running st = true
  /\ (length (bufferRef st') = WINDOW_SIZE)%nat
  /\ Qlt STOP_THRESHOLD (varianceOf (bufferRef st'))
  /\ Qlt (varianceOf (bufferRef st')) MOVE_THRESHOLD
  /\ stateRef st = moving /\ stateRef st' = moving
  /\ stateCounterRef st = 3%nat
  /\ stateCounterRef st' = 3%nat
  /\ stateCounterRef st' <> 0%nat.
Proof.
  vm_compute. repeat split; try reflexivity; discriminate.
Qed.

Lemma tallies_machine st st' : machine st' = machine st -> tallies st -> tallies st'.
Proof.
  unfold machine, tallies. intros M. injection M as _ _ _ _ _ E1 E2 _ _.
  now rewrite E1, E2.
Qed.

Lemma confirmStop_tallies now st : now <> 0 -> tallies st -> tallies (confirmStop now st).
Proof.
  unfold tallies, confirmStop. intros Hn H.
  destruct (_ && _); cbn; [|exact H]. split; [discriminate|contradiction].
Qed.

Lemma classify_tallies now v st : now <> 0 -> tallies st -> tallies (classify now v st).
Proof.
  intros Hn H. unfold classify.
  repeat match goal with
         | |- context [if ?c then _ else _] => destruct c
         end;
  try exact H;
  try (apply (tallies_machine (confirmStop now st)); [reflexivity|]);
  now apply confirmStop_tallies.
Qed.

Lemma handleMotion_tallies st ev :
  clock ev <> 0 -> tallies st -> tallies (handleMotion st ev).
Proof.
  intros Hn H. destruct (magnitude ev) as [m|] eqn:Hm.
  - destruct (handleMotion_reading st ev m Hm) as (st1 & M & _ & _ & Short & Full).
    pose proof (tallies_machine _ _ M H) as H1.
    destruct (Nat.ltb_spec (length (window (bufferRef st) m)) WINDOW_SIZE) as [L|L].
    + destruct (Short L) as [_ E]. now rewrite E.
    + destruct (Full L) as [_ E]. rewrite E. now apply classify_tallies.
  - unfold handleMotion. now rewrite Hm.
Qed.

Lemma react_tallies stations st i :
  clockRuns i = true -> tallies st -> tallies (react stations st i).
Proof.
  intros Hc H. destruct i as [l o d g now| |ev]; cbn [react].
  - unfold handleStart.
    destruct (_ || _); [exact H|]. destruct g; cbn; [|exact H].
    unfold tallies. cbn. tauto.
  - exact H.
  - destruct (running st); [|exact H]. apply handleMotion_tallies; [|exact H].
    cbn in Hc. apply Z.ltb_lt in Hc. lia.
Qed.

Lemma session_tallies stations inputs : forall st,
  forallb clockRuns inputs = true -> tallies st ->
  tallies (fold_left (react stations) inputs st).
Proof.
  induction inputs as [|i inputs IH]; intros st Hc H; [exact H|].
  cbn in Hc. apply andb_true_iff in Hc as [Hi Hc]. cbn [fold_left].
  apply IH; [exact Hc|]. now apply react_tallies.
Qed.

(** C1. In every state a session can reach (readings carrying a positive
    clock), [confirmStop] at time [now] confirms the pending stop exactly
    when the stop has lasted at least [MIN_STOP_MS] and either no stop has
    been confirmed yet or the gap from the last confirmation to the start
    of this stop is at least [MIN_GAP_MS].  Confirming increments the stop
    counter, records [now] as the time of the last confirmation and appends
    one detected stop; otherwise the ignored counter is incremented and no
    stop is appended.  Either way the pending flag is cleared.  In
    particular a stop that begins less than [MIN_GAP_MS] after a confirmed
    one is ignored. *)
Theorem confirmStop_gate
  (stations : list Station) (inputs : list Input) (now : Z) :
  forallb clockRuns inputs = true ->
  let st := fold_left (react stations) inputs mounted in
  let st' := confirmStop now st in
  let qualifies :=
    MIN_STOP_MS <= now - stopStartTimeRef st
    /\ (stopCountRef st = 0%nat
        \/ MIN_GAP_MS <= stopStartTimeRef st - lastConfirmedStopRef st) in
  (qualifies ->
   stopCountRef st' = S (stopCountRef st)
   /\ lastConfirmedStopRef st' = now
   /\ (exists stop, detectedStops st' = detectedStops st ++ [stop]
                    /\ index stop = S (stopCountRef st)
                    /\ time stop = stopStartTimeRef st)
   /\ ignoredStops st' = ignoredStops st
   /\ pendingStopRef st' = false)
  /\ (~ qualifies ->
      stopCountRef st' = stopCountRef st
      /\ lastConfirmedStopRef st' = lastConfirmedStopRef st
      /\ detectedStops st' = detectedStops st
      /\ ignoredStops st' = S (ignoredStops st)
      /\ pendingStopRef st' = false)
  /\ (stopCountRef st <> 0%nat ->
      stopStartTimeRef st - lastConfirmedStopRef st < MIN_GAP_MS ->
      detectedStops st' = detectedStops st
      /\ ignoredStops st' = S (ignoredStops st)).
Proof.
  intros Hc st st' qualifies.
  assert (T : tallies st).
  { apply session_tallies; [exact Hc|]. unfold tallies. now cbn. }
  assert (G : qualifies <->
              (MIN_STOP_MS <=? now - stopStartTimeRef st)
              && ((lastConfirmedStopRef st =? 0)
                  || (MIN_GAP_MS <=? stopStartTimeRef st - lastConfirmedStopRef st))
              = true).
  { unfold qualifies. rewrite andb_true_iff, orb_true_iff, !Z.leb_le, Z.eqb_eq.
    unfold tallies in T. tauto. }
  subst st'. unfold confirmStop. cbv zeta.
  destruct (_ && _) eqn:E; cbn.
  - split; [|split].
    + intros _. repeat split. eexists. repeat split.
    + intros N. exfalso. apply N, G. reflexivity.
    + intros Hs Hg. exfalso. apply andb_true_iff in E as [_ E].
      apply orb_true_iff in E as [E|E].
      * apply Z.eqb_eq in E. apply Hs, T, E.
      * apply Z.leb_le in E. lia.
  - split; [|split].
    + intros Q. apply G in Q. discriminate.
    + intros _. repeat split.
    + intros _ _. repeat split.
Qed.

Lemma stationNameFor_in_range route stopIdx s :
  nth_error route stopIdx = Some s ->
  stationNameFor route stopIdx = Returns (name s).
Proof.
  intros H. unfold stationNameFor.
  assert (L : (stopIdx < length route)%nat) by (apply nth_error_Some; congruence).
  apply Nat.ltb_lt in L. now rewrite L, H.
Qed.

Lemma stationNameFor_beyond route stopIdx :
  (length route <= stopIdx)%nat ->
  stationNameFor route stopIdx = Returns (beyondRoute stopIdx).
Proof.
  intros H. unfold stationNameFor. apply Nat.ltb_ge in H. now rewrite H.
Qed.

(** C6. The station of a confirmed stop is looked up without throwing:
    [Route[i].name] when [i] is a position of the route, and otherwise the
    label that reads [Stop #], the index plus one in decimal, and
    [ (beyond route)].  The stop confirmed when [stopIdx] stops have been
    counted carries the index [stopIdx + 1] and the name found there, so
    that on a route of five stations the first three confirmed stops are
    given [Route[1]], [Route[2]] and [Route[3]], and an index of five or
    more is given the label: [Stop #6 (beyond route)] at index five. *)
Theorem stationNameFor_total (route : list Station) (stopIdx : nat) :
  stationNameFor route stopIdx <> Throws
  /\ (forall s, nth_error route stopIdx = Some s ->
                stationNameFor route stopIdx = Returns (name s))
  /\ ((length route <= stopIdx)%nat ->
      stationNameFor route stopIdx
      = Returns ("Stop #" ++ NilEmpty.string_of_uint (Nat.to_uint (stopIdx + 1))
                 ++ " (beyond route)")%string)
  /\ (forall now st stop,
        routeRef st = route -> stopCountRef st = stopIdx ->
        In stop (detectedStops (confirmStop now st)) ->
        In stop (detectedStops st)
        \/ (index stop = S stopIdx
            /\ stationNameFor route (S stopIdx) = Returns (stationName stop)
            /\ ((length route <= S stopIdx)%nat ->
                stationName stop
                = ("Stop #" ++ NilEmpty.string_of_uint (Nat.to_uint (S stopIdx + 1))
                   ++ " (beyond route)")%string)))
  /\ (forall r0 r1 r2 r3 r4,
        route = [r0; r1; r2; r3; r4] ->
        stationNameFor route 1 = Returns (name r1)
        /\ stationNameFor route 2 = Returns (name r2)
        /\ stationNameFor route 3 = Returns (name r3)
        /\ stationNameFor route 5 = Returns "Stop #6 (beyond route)"%string
        /\ stationNameFor route 12 = Returns "Stop #13 (beyond route)"%string
        /\ ((5 <= stopIdx)%nat ->
            stationNameFor route stopIdx
            = Returns ("Stop #" ++ NilEmpty.string_of_uint (Nat.to_uint (stopIdx + 1))
                       ++ " (beyond route)")%string)).
Proof.
  assert (Total : forall r i, exists n, stationNameFor r i = Returns n).
  { intros r i. destruct (nth_error r i) as [s|] eqn:E.
    - exists (name s). now apply stationNameFor_in_range.
    - exists (beyondRoute i). apply stationNameFor_beyond.
      now apply nth_error_None. }
  split; [|split; [|split; [|split]]].
  - destruct (Total route stopIdx) as [n E]. rewrite E. discriminate.
  - apply stationNameFor_in_range.
  - apply stationNameFor_beyond.
  - intros now st stop Hr Hc. unfold confirmStop. cbv zeta.
    destruct (_ && _); cbn; [|now left].
    rewrite in_app_iff. intros [H|[<-|[]]]; [now left|right]. cbn.
    rewrite Hr, Hc. split; [reflexivity|]. split.
    + destruct (Total route (S stopIdx)) as [n E]. rewrite E. now cbn.
    + intros Far. now rewrite (stationNameFor_beyond route (S stopIdx) Far).
  - intros r0 r1 r2 r3 r4 ->. repeat split.
    intros H. apply stationNameFor_beyond. cbn. lia.
Qed.

Lemma stationNameFor_total_witness :
  nth_error Scenario.blueLine 1
  = Some {| id := "BL10"; name := "Tao Poon"; line := mrt_blue;
            lat := 13806 # 1000; lng := 100531 # 1000 |}
  /\ stationNameFor Scenario.blueLine 1 = Returns "Tao Poon"%string
  /\ (length Scenario.blueLine <= 5)%nat
  /\ stationNameFor Scenario.blueLine 5 = Returns "Stop #6 (beyond route)"%string
  /\ (length Scenario.blueLine <= 41)%nat
  /\ stationNameFor Scenario.blueLine 41 = Returns "Stop #42 (beyond route)"%string.
Proof.
  split; [reflexivity|]. split.
  { apply (proj1 (proj2 (stationNameFor_total Scenario.blueLine 1))
             {| id := "BL10"; name := "Tao Poon"; line := mrt_blue;
                lat := 13806 # 1000; lng := 100531 # 1000 |}).
    reflexivity. }
  assert (H5 : (length Scenario.blueLine <= 5)%nat) by (cbn; lia).
  assert (H41 : (length Scenario.blueLine <= 41)%nat) by (cbn; lia).
  split; [exact H5|]. split.
  { exact (proj1 (proj2 (proj2 (stationNameFor_total Scenario.blueLine 5))) H5). }
  split; [exact H41|].
  exact (proj1 (proj2 (proj2 (stationNameFor_total Scenario.blueLine 41))) H41).
Defined.

End MotionFacts.

Section AudioFacts.

Import Audio.

(** ** The chime detector *)

Lemma tick_emitting st now avgDb :
  emits st now avgDb = true ->
  chimeCount (tick st now avgDb) = S (chimeCount st)
  /\ eventLog (tick st now avgDb)
     = eventLog st ++ [{| time := now; source := chime;
                          detail := ChimeNo (S (chimeCount st)) avgDb |}]
  /\ chimeActiveRef (tick st now avgDb) = false
  /\ chimeDetected (tick st now avgDb) = true
  /\ flashTimers (tick st now avgDb) = flashTimers st ++ [now + 2000].
Proof.
  unfold emits, tick. intros H.
  apply andb_true_iff in H as [H D]. apply andb_true_iff in H as [L A].
  cbn. rewrite L, A. cbn. rewrite D. cbn. repeat split.
Qed.

Lemma tick_silent st now avgDb :
  emits st now avgDb = false ->
  chimeCount (tick st now avgDb) = chimeCount st
  /\ eventLog (tick st now avgDb) = eventLog st
  /\ flashTimers (tick st now avgDb) = flashTimers st
  /\ chimeActiveRef (tick st now avgDb)
     = Qlt_bool CHIME_THRESHOLD_DB avgDb
  /\ chimeStartRef (tick st now avgDb)
     = (if Qlt_bool CHIME_THRESHOLD_DB avgDb && negb (chimeActiveRef st)
        then now else chimeStartRef st).
Proof.
  unfold emits, tick. intros H. cbn.
  destruct (Qlt_bool CHIME_THRESHOLD_DB avgDb); cbn in *; [|repeat split].
  destruct (chimeActiveRef st) eqn:A; cbn in *; [|repeat split].
  rewrite H. repeat split. exact A.
Qed.

(** Once armed, the detector keeps its activation start through frames
    that stay above the threshold and come before the minimum duration. *)
Lemma frames_rising (l : list (Z * Q)) : forall st start,
  chimeActiveRef st = true -> chimeStartRef st = start ->
  Forall (fun f => Qlt_bool CHIME_THRESHOLD_DB (snd f) = true
                   /\ fst f - start < CHIME_MIN_DURATION_MS) l ->
  chimeCount (frames st l) = chimeCount st
  /\ eventLog (frames st l) = eventLog st
  /\ chimeActiveRef (frames st l) = true
  /\ chimeStartRef (frames st l) = start.
Proof.
  induction l as [|[now db] l IH]; intros st start A S F; [now cbn|].
  inversion F as [|? ? [Hdb Ht] F']; subst. cbn in Hdb, Ht.
  cbn [frames fold_left fst snd]. fold (frames (tick st now db) l).
  assert (E : emits st now db = false).
  { unfold emits. rewrite Hdb, A. cbn. apply Z.leb_gt. lia. }
  destruct (tick_silent st now db E) as (C & L & _ & A' & S').
  rewrite Hdb in A'. rewrite Hdb, A in S'. cbn in S'.
  destruct (IH (tick st now db) (chimeStartRef st) A' S' F') as (C2 & L2 & A2 & S2).
  rewrite C2, L2, A2, S2, C, L. repeat split.
Qed.

(** C5. An activation begins with a frame above the threshold while the
    detector is not active, at [t0].  Through further frames above the
    threshold that come less than [CHIME_MIN_DURATION_MS] after [t0] the
    detector stays active and emits nothing.  A frame not above the
    threshold then clears the flag without an event; a frame above the
    threshold at [t0 + CHIME_MIN_DURATION_MS] or later emits exactly one
    event and ends the activation. *)
Theorem chime_activation
  (st : State) (t0 : Z) (db0 : Q) (rising : list (Z * Q)) :
  chimeActiveRef st = false ->
  Qlt CHIME_THRESHOLD_DB db0 ->
  Forall (fun f => Qlt CHIME_THRESHOLD_DB (snd f)
                   /\ fst f - t0 < CHIME_MIN_DURATION_MS) rising ->
  let armed := frames (tick st t0 db0) rising in
  (chimeActiveRef armed = true /\ chimeStartRef armed = t0
   /\ chimeCount armed = chimeCount st /\ eventLog armed = eventLog st)
  /\ (forall now db,
        ~ Qlt CHIME_THRESHOLD_DB db ->
        chimeCount (tick armed now db) = chimeCount st
        /\ eventLog (tick armed now db) = eventLog st
        /\ chimeActiveRef (tick armed now db) = false)
  /\ (forall now db,
        Qlt CHIME_THRESHOLD_DB db ->
        CHIME_MIN_DURATION_MS <= now - t0 ->
        chimeCount (tick armed now db) = S (chimeCount st)
        /\ eventLog (tick armed now db)
           = eventLog st ++ [{| time := now; source := chime;
                                detail := ChimeNo (S (chimeCount st)) db |}]
        /\ chimeActiveRef (tick armed now db) = false).
Proof.
  intros A Hdb0 F armed.
  assert (E0 : emits st t0 db0 = false).
  { unfold emits. rewrite A. now rewrite andb_false_r. }
  destruct (tick_silent st t0 db0 E0) as (C0 & L0 & _ & A0 & S0).
  apply Qlt_bool_iff in Hdb0. rewrite Hdb0 in A0. rewrite Hdb0, A in S0. cbn in S0.
  assert (F' : Forall (fun f => Qlt_bool CHIME_THRESHOLD_DB (snd f) = true
                                /\ fst f - t0 < CHIME_MIN_DURATION_MS) rising).
  { eapply List.Forall_impl; [|exact F]. intros f [H1 H2]. split; [|exact H2].
    now apply Qlt_bool_iff. }
  destruct (frames_rising rising (tick st t0 db0) t0 A0 S0 F') as (C & L & A1 & S1).
  fold armed in C, L, A1, S1. rewrite C0 in C. rewrite L0 in L.
  split; [now repeat split|]. split.
  - intros now db Hlow.
    assert (Q : Qlt_bool CHIME_THRESHOLD_DB db = false).
    { destruct (Qlt_bool CHIME_THRESHOLD_DB db) eqn:Q; [|reflexivity].
      apply Qlt_bool_iff in Q. contradiction. }
    assert (E : emits armed now db = false) by (unfold emits; now rewrite Q).
    destruct (tick_silent armed now db E) as (C' & L' & _ & A' & _).
    rewrite C', L', A', C, L, Q. repeat split.
  - intros now db Hhigh Hlong. apply Qlt_bool_iff in Hhigh.
    assert (E : emits armed now db = true).
    { unfold emits. rewrite Hhigh, A1, S1. cbn. now apply Z.leb_le. }
    destruct (tick_emitting armed now db E) as (C' & L' & A' & _).
    rewrite C', L', A', C, L. repeat split.
Qed.

Lemma onresult_chime st ev :
  chimeActiveRef (onresult st ev) = chimeActiveRef st
  /\ chimeStartRef (onresult st ev) = chimeStartRef st.
Proof.
  unfold onresult. cbv zeta.
  destruct (matchStationInText _ _) as [found|]; [destruct (negb _)|];
    split; reflexivity.
Qed.

Lemma react_keeps_activation stations t1 st i :
  since t1 i = true ->
  (chimeActiveRef st = true -> t1 <= chimeStartRef st) ->
  chimeActiveRef (react stations st i) = true ->
  t1 <= chimeStartRef (react stations st i).
Proof.
  intros Hs J. destruct i as [l o d sup mic now| |ev|now db|]; cbn [react].
  - unfold handleStart. destruct (_ || _); [exact J|].
    destruct sup, mic; cbn; exact J.
  - exact J.
  - destruct (onresult_chime st ev) as [-> ->]. exact J.
  - cbn in Hs. apply Z.leb_le in Hs.
    destruct (emits st now db) eqn:E.
    + destruct (tick_emitting st now db E) as (_ & _ & A & _). rewrite A. discriminate.
    + destruct (tick_silent st now db E) as (_ & _ & _ & A & S). rewrite S.
      rewrite A. intros ->.
      destruct (chimeActiveRef st); cbn; [now apply J|exact Hs].
  - unfold flashTimeout. destruct (flashTimers st); exact J.
Qed.

Lemma run_keeps_activation stations t1 inputs : forall st,
  forallb (since t1) inputs = true ->
  (chimeActiveRef st = true -> t1 <= chimeStartRef st) ->
  chimeActiveRef (fold_left (react stations) inputs st) = true ->
  t1 <= chimeStartRef (fold_left (react stations) inputs st).
Proof.
  induction inputs as [|i inputs IH]; intros st Hs J; [exact J|].
  cbn in Hs. apply andb_true_iff in Hs as [Hi Hs]. cbn [fold_left].
  apply IH; [exact Hs|]. now apply react_keeps_activation.
Qed.

(** C4, as amended. A frame that emits a chime counts it, clears the
    active flag and schedules a timer for 2000 ms later.  When that timer
    runs it clears the displayed chime flag and nothing else: the count,
    the log and the activation are as before, and so is the verdict on
    every frame, so the timer does not gate detection.  With frames
    handled in clock order (none after the emission carries an earlier
    clock reading), whatever follows, no further chime is emitted less
    than [CHIME_MIN_DURATION_MS] after this one. *)
Theorem no_second_chime_within_min_duration
  (stations : list Station) (st : State) (t1 : Z) (db1 : Q)
  (later : list Input) (now : Z) (db : Q) :
  emits st t1 db1 = true ->
  forallb (since t1) later = true ->
  let st1 := tick st t1 db1 in
  (chimeCount st1 = S (chimeCount st)
   /\ chimeActiveRef st1 = false
   /\ chimeDetected st1 = true
   /\ flashTimers st1 = flashTimers st ++ [t1 + 2000])
  /\ (forall s,
        chimeCount (flashTimeout s) = chimeCount s
        /\ eventLog (flashTimeout s) = eventLog s
        /\ chimeActiveRef (flashTimeout s) = chimeActiveRef s
        /\ chimeStartRef (flashTimeout s) = chimeStartRef s
        /\ (flashTimers s <> [] -> chimeDetected (flashTimeout s) = false)
        /\ (forall t d, emits (flashTimeout s) t d = emits s t d)
        /\ (forall t d,
              chimeCount (tick (flashTimeout s) t d) = chimeCount (tick s t d)
              /\ eventLog (tick (flashTimeout s) t d) = eventLog (tick s t d)
              /\ chimeActiveRef (tick (flashTimeout s) t d)
                 = chimeActiveRef (tick s t d)
              /\ chimeStartRef (tick (flashTimeout s) t d)
                 = chimeStartRef (tick s t d)))
  /\ (emits (fold_left (react stations) later st1) now db = true ->
      t1 + CHIME_MIN_DURATION_MS <= now).
Proof.
  intros E Hs st1.
  destruct (tick_emitting st t1 db1 E) as (C & _ & A & D & T).
  fold st1 in C, A, D, T. split; [repeat split; assumption|]. split.
  - intros s. unfold flashTimeout.
    destruct (flashTimers s) as [|timer rest] eqn:F.
    + repeat split. intros N. now elim N.
    + repeat split; unfold tick; cbn;
        repeat match goal with
               | |- context [if ?c then _ else _] => destruct c
               end; reflexivity.
  - unfold emits. intros H.
    apply andb_true_iff in H as [H D']. apply andb_true_iff in H as [_ A'].
    apply Z.leb_le in D'.
    pose proof (run_keeps_activation stations t1 later st1 Hs) as J.
    rewrite A in J. specialize (J ltac:(discriminate) A'). lia.
Qed.

(** ** The announcement matcher *)

Section SortFacts.

Context {A : Type} (cmp : A -> A -> Z).

Lemma insertBy_perm x (l : list A) : Permutation (x :: l) (insertBy cmp x l).
Proof.
  induction l as [|y r IH]; cbn [insertBy]; [reflexivity|].
  destruct (cmp x y <=? 0); [reflexivity|].
  rewrite perm_swap. now apply perm_skip.
Qed.

Lemma sortBy_perm (l : list A) : Permutation l (sortBy cmp l).
Proof.
  induction l as [|x r IH]; cbn; [reflexivity|].
  rewrite <- insertBy_perm. now apply perm_skip.
Qed.

(** Sorting by a key in descending order. *)
Variable key : A -> nat.
Hypothesis cmp_key : forall a b, cmp a b = Z.of_nat (key b) - Z.of_nat (key a).

Lemma insertBy_sorted x (l : list A) :
  StronglySorted (fun a b => (key b <= key a)%nat) l ->
  StronglySorted (fun a b => (key b <= key a)%nat) (insertBy cmp x l).
Proof.
  induction l as [|y r IH]; intros S; cbn [insertBy].
  - constructor; constructor.
  - inversion S as [|? ? Sr Fy]; subst.
    destruct (Z.leb_spec (cmp x y) 0) as [L|L]; rewrite cmp_key in L.
    + constructor; [exact S|]. constructor; [lia|].
      eapply List.Forall_impl; [|exact Fy]. cbn. intros z Hz. lia.
    + constructor; [now apply IH|].
      eapply Permutation_Forall; [apply insertBy_perm|].
      constructor; [lia|exact Fy].
Qed.

Lemma sortBy_sorted (l : list A) :
  StronglySorted (fun a b => (key b <= key a)%nat) (sortBy cmp l).
Proof.
  induction l as [|x r IH]; cbn; [constructor|]. now apply insertBy_sorted.
Qed.

(** Stability: elements with the same key keep their relative order. *)
Lemma insertBy_stable n x (l : list A) :
  List.filter (fun a => (key a =? n)%nat) (insertBy cmp x l)
  = List.filter (fun a => (key a =? n)%nat) (x :: l).
Proof.
  induction l as [|y r IH]; cbn [insertBy]; [reflexivity|].
  destruct (Z.leb_spec (cmp x y) 0) as [L|L]; [reflexivity|].
  rewrite cmp_key in L. cbn [List.filter] in *. rewrite IH.
  destruct (Nat.eqb_spec (key y) n), (Nat.eqb_spec (key x) n);
    try reflexivity. lia.
Qed.

Lemma sortBy_stable n (l : list A) :
  List.filter (fun a => (key a =? n)%nat) (sortBy cmp l)
  = List.filter (fun a => (key a =? n)%nat) l.
Proof.
  induction l as [|x r IH]; cbn [sortBy fold_right]; [reflexivity|].
  fold (sortBy cmp r). rewrite insertBy_stable. cbn [List.filter].
  now rewrite IH.
Qed.

End SortFacts.

Lemma keywordHit_existsb lower kws :
  keywordHit lower kws
  = existsb (fun kw => (4 <=? String.length kw)%nat && includes lower kw) kws.
Proof.
  induction kws as [|kw r IH]; cbn; [reflexivity|].
  rewrite IH. now destruct (_ && _).
Qed.

Lemma scanStations_find lower l :
  scanStations lower l
  = find (fun s => includes lower (toLowerCase (Keyword.name s))
                   || existsb (fun kw => (4 <=? String.length kw)%nat
                                         && includes lower kw)
                              (Keyword.keywords s)) l.
Proof.
  induction l as [|s r IH]; cbn [scanStations find]; [reflexivity|].
  rewrite keywordHit_existsb, IH.
  destruct (includes lower (toLowerCase (Keyword.name s))); [reflexivity|].
  cbn. now destruct (existsb _ _).
Qed.

(** C8, as amended. The matcher walks the stations from the longest name
    to the shortest, stations with names of equal length in their given
    order, and returns the first station whose lower-cased full name
    occurs in the lower-cased text or one of whose keywords of four or
    more characters does: both tests are made on a station before the next
    station is looked at. *)
Theorem matchStationInText_first_hit (text : string) (stationKeywords : list Keyword.t) :
  let lower := toLowerCase text in
  let fullName s := includes lower (toLowerCase (Keyword.name s)) in
  let keyword s :=
    existsb (fun kw => (4 <=? String.length kw)%nat && includes lower kw)
            (Keyword.keywords s) in
  let sorted := sortBy byNameLengthDesc stationKeywords in
  matchStationInText text stationKeywords
  = find (fun s => fullName s || keyword s) sorted
  /\ Permutation stationKeywords sorted
  /\ StronglySorted
       (fun a b => (String.length (Keyword.name b)
                    <= String.length (Keyword.name a))%nat) sorted
  /\ (forall n,
        List.filter (fun s => (String.length (Keyword.name s) =? n)%nat) sorted
        = List.filter (fun s => (String.length (Keyword.name s) =? n)%nat)
                      stationKeywords).
Proof.
  intros lower fullName keyword sorted. repeat split.
  - unfold matchStationInText. cbv zeta. apply scanStations_find.
  - apply sortBy_perm.
  - apply (sortBy_sorted byNameLengthDesc (fun s => String.length (Keyword.name s))).
    reflexivity.
  - intros n.
    apply (sortBy_stable byNameLengthDesc (fun s => String.length (Keyword.name s))).
    reflexivity.
Qed.

(** C8, counterexample. The text contains the full name of Bang Sue, yet
    the matcher returns Bang Phlat, whose full name does not occur in the
    text, on the keyword [bang]. *)
Lemma keyword_beats_full_name :
  let text := "Next station, Bang Sue"%string in
  let lower := toLowerCase text in
  exists sue phlat,
    In sue Scenario.blueKeywords
    /\ Keyword.name sue = "Bang Sue"%string
    /\ includes lower (toLowerCase (Keyword.name sue)) = true
    /\ matchStationInText text Scenario.blueKeywords = Some phlat
    /\ Keyword.name phlat = "Bang Phlat"%string
    /\ includes lower (toLowerCase (Keyword.name phlat)) = false.
Proof.
  eexists _, _. repeat split; [left; reflexivity|..]; vm_compute; reflexivity.
Qed.

(** ** Speech matches *)

Lemma onresult_recorded st ev : recorded st -> recorded (onresult st ev).
Proof.
  intros [N S]. unfold onresult. cbv zeta.
  destruct (matchStationInText _ _) as [found|]; [|now split].
  cbn [matchedStationsRef setTranscript].
  case_bool_decide as M; cbn [negb]; [now split|].
  split; cbn.
  - apply NoDup_ListNoDup, NoDup_app.
    split; [now apply NoDup_ListNoDup|]. split; [|apply NoDup_singleton].
    intros x Hx Hf. apply list_elem_of_singleton in Hf as ->.
    apply M, S, list_elem_of_In, Hx.
  - intros x Hx. apply in_app_iff in Hx as [Hx|[<-|[]]]; [|set_solver].
    apply S in Hx. set_solver.
Qed.

Lemma react_recorded stations st i : recorded st -> recorded (react stations st i).
Proof.
  intros R. destruct i as [l o d sup mic now| |ev|now db|]; cbn [react].
  - unfold handleStart. destruct (_ || _); [exact R|].
    destruct sup, mic; cbn; (split; [constructor|intros x []]).
  - exact R.
  - now apply onresult_recorded.
  - unfold tick. cbv zeta. cbn.
    repeat match goal with
           | |- context [if ?c then _ else _] => destruct c
           end; exact R.
  - unfold flashTimeout. destruct (flashTimers st); exact R.
Qed.

(** C9. Whatever reaches the component, the list of speech matches holds
    no station id twice and only ids of the matched set; a result that
    matches a station whose id is in the set adds no match, no id and no
    log entry. *)
Theorem speech_matches_once (stations : list Station) (inputs : list Input) :
  let st := fold_left (react stations) inputs mounted in
  List.NoDup (speechMatches st)
  /\ (forall x, In x (speechMatches st) -> x ∈ matchedStationsRef st)
  /\ (forall event found,
        matchStationInText (latest event) (stationKeywordsRef st) = Some found ->
        Keyword.id found ∈ matchedStationsRef st ->
        speechMatches (onresult st event) = speechMatches st
        /\ matchedStationsRef (onresult st event) = matchedStationsRef st
        /\ eventLog (onresult st event) = eventLog st).
Proof.
  intros st.
  assert (R : recorded st).
  { subst st. assert (R0 : recorded mounted) by (split; [constructor|intros x []]).
    revert R0. generalize mounted.
    induction inputs as [|i inputs IH]; intros s Rs; [exact Rs|].
    cbn [fold_left]. apply IH. now apply react_recorded. }
  destruct R as [N S]. split; [exact N|]. split; [exact S|].
  intros event found Hm Hin. unfold onresult. cbv zeta.
  cbn [stationKeywordsRef setTranscript]. rewrite Hm.
  cbn [matchedStationsRef setTranscript].
  rewrite bool_decide_true by exact Hin. cbn. repeat split.
Qed.

End AudioFacts.

(** ** The theorems at work on the recorded sessions *)

Section Sessions.

Import Scenario.

Lemma getStationsOnRoute_direction_witness :
  ("BL07" <> "BL11")%string
  /\ (exists o, In o (List.filter (fun s => LineId_eqb (line s) mrt_blue) blueLine)
                /\ id o = "BL07"%string)
  /\ (exists d, In d (List.filter (fun s => LineId_eqb (line s) mrt_blue) blueLine)
                /\ id d = "BL11"%string)
  /\ map name (getStationsOnRoute blueLine mrt_blue "BL07" "BL11")
     = ["Bang Phlat"; "Bang O"; "Bang Pho"; "Tao Poon"; "Bang Sue"]%string
  /\ exists o, hd_error (getStationsOnRoute blueLine mrt_blue "BL07" "BL11") = Some o
               /\ id o = "BL07"%string.
Proof.
  assert (H1 : ("BL07" <> "BL11")%string) by discriminate.
  assert (H2 : exists o, In o (List.filter (fun s => LineId_eqb (line s) mrt_blue) blueLine)
                         /\ id o = "BL07"%string).
  { eexists. split; [do 4 right; left; reflexivity|reflexivity]. }
  assert (H3 : exists d, In d (List.filter (fun s => LineId_eqb (line s) mrt_blue) blueLine)
                         /\ id d = "BL11"%string).
  { eexists. split; [left; reflexivity|reflexivity]. }
  repeat (split; [assumption|]). split; [reflexivity|].
  destruct (proj1 (getStationsOnRoute_direction blueLine mrt_blue "BL07" "BL11") H1 H2 H3)
    as (o & d & _ & _ & Ho & _ & _ & Hhd & _).
  exists o. now split.
Defined.

Lemma confirmStop_gate_witness :
  let inputs := startJourney :: map Motion.Sensor (twoStops 77) in
  let st := fold_left (Motion.react blueLine) inputs Motion.mounted in
  let now := t0 + 700 * 99 in
  forallb Motion.clockRuns inputs = true
  /\ Motion.MIN_STOP_MS <= now - Motion.stopStartTimeRef st
  /\ Motion.stopCountRef st = 0%nat
  /\ Motion.stopCountRef (Motion.confirmStop now st) = S (Motion.stopCountRef st)
  /\ Motion.lastConfirmedStopRef (Motion.confirmStop now st) = now.
Proof.
  intros inputs st now.
  assert (H1 : forallb Motion.clockRuns inputs = true) by (vm_compute; reflexivity).
  assert (H23 : Motion.MIN_STOP_MS <= now - Motion.stopStartTimeRef st
                /\ Motion.stopCountRef st = 0%nat)
    by (vm_compute; split; [discriminate|reflexivity]).
  destruct H23 as [H2 H3].
  split; [exact H1|]. split; [exact H2|]. split; [exact H3|].
  destruct (confirmStop_gate blueLine inputs now H1) as [Confirm _].
  destruct (Confirm (conj H2 (or_introl H3))) as (C & L & _).
  split; [exact C|exact L].
Defined.
Lemma hysteresis_gap_keeps_state_witness :
  let st := session (joltRun 72) in
  let ev := reading [10%nat] [73%nat] 50 73 in
  Motion.magnitude ev <> None
  /\ (Motion.WINDOW_SIZE <= length (Motion.bufferRef (Motion.handleMotion st ev)))%nat
  /\ Qlt Motion.STOP_THRESHOLD
         (Motion.varianceOf (Motion.bufferRef (Motion.handleMotion st ev)))
  /\ Qlt (Motion.varianceOf (Motion.bufferRef (Motion.handleMotion st ev)))
         Motion.MOVE_THRESHOLD
  /\ Motion.stateRef (Motion.handleMotion st ev) = Motion.stateRef st
  /\ Motion.stateCounterRef (Motion.handleMotion st ev) = Motion.stateCounterRef st.
Proof.
  intros st ev.
  assert (H1 : Motion.magnitude ev <> None) by discriminate.
  assert (H234 :
            (Motion.WINDOW_SIZE
             <= length (Motion.bufferRef (Motion.handleMotion st ev)))%nat
            /\ Qlt Motion.STOP_THRESHOLD
                   (Motion.varianceOf (Motion.bufferRef (Motion.handleMotion st ev)))
            /\ Qlt (Motion.varianceOf (Motion.bufferRef (Motion.handleMotion st ev)))
                   Motion.MOVE_THRESHOLD)
    by (vm_compute; split; [lia|split; reflexivity]).
  destruct H234 as (H2 & H3 & H4).
  split; [exact H1|]. split; [exact H2|]. split; [exact H3|]. split; [exact H4|].
  destruct (hysteresis_gap_keeps_state st ev H1 H2 H3 H4) as (S1 & _ & S3 & _).
  split; [exact S1|exact S3].
Defined.
Lemma warmup_buffers_only_witness :
  let st := Motion.feed (Motion.handleStart blueLine mrt_blue "BL11" "BL07" true
                                            t0 Motion.mounted) (joltRun 59) in
  ("BL11" <> "")%string /\ ("BL07" <> "")%string /\ ("BL11" <> "BL07")%string
  /\ (length (joltRun 59) < Motion.WINDOW_SIZE)%nat
  /\ Motion.stateRef st = Motion.idle
  /\ Motion.detectedStops st = [].
Proof.
  intros st.
  assert (H1 : ("BL11" <> "")%string) by discriminate.
  assert (H2 : ("BL07" <> "")%string) by discriminate.
  assert (H3 : ("BL11" <> "BL07")%string) by discriminate.
  assert (H4 : (length (joltRun 59) < Motion.WINDOW_SIZE)%nat) by (vm_compute; lia).
  split; [exact H1|]. split; [exact H2|]. split; [exact H3|]. split; [exact H4|].
  destruct (warmup_buffers_only blueLine mrt_blue "BL11" "BL07" t0 Motion.mounted
              (joltRun 59) H1 H2 H3 H4) as (S1 & _ & _ & S4 & _).
  split; [exact S1|exact S4].
Defined.

Lemma motion_never_returns_to_idle_witness :
  let st := session (joltRun 69) in
  Motion.stateRef st <> Motion.idle
  /\ Motion.stateRef (Motion.feed st (map (reading [] [] 50) (seq 70 60)))
     <> Motion.idle.
Proof.
  intros st.
  assert (H : Motion.stateRef st <> Motion.idle) by (vm_compute; discriminate).
  split; [exact H|].
  exact (proj1 (motion_never_returns_to_idle blueLine st
                  (map (reading [] [] 50) (seq 70 60))) H).
Defined.

(** The two-stop session.  Its first stop is given the second station of
    the route.  Its second stop begins 47.6 s after the first confirmation
    and is evaluated 63 s after it: the gap of [confirmStop] runs to the
    start of the pending stop, not to the time of the evaluation, and the
    stop is ignored. *)
Example second_stop_of_two_is_ignored :
  let st := session (twoStops 188) in
  let now := t0 + 700 * 189 in
  Motion.detectedStops st
  = [{| Motion.index := 1; Motion.stationName := "Tao Poon";
        Motion.time := t0 + 700 * 77 |}]
  /\ Motion.pendingStopRef st = true
  /\ now - Motion.stopStartTimeRef st = 15400
  /\ now - Motion.lastConfirmedStopRef st = 63000
  /\ Motion.stopStartTimeRef st - Motion.lastConfirmedStopRef st = 47600
  /\ Motion.detectedStops (Motion.confirmStop now st) = Motion.detectedStops st
  /\ Motion.ignoredStops (Motion.confirmStop now st) = 1%nat.
Proof. vm_compute. repeat split. Qed.

Lemma chime_activation_witness :
  let st := listen [] in
  Audio.chimeActiveRef st = false
  /\ Qlt Audio.CHIME_THRESHOLD_DB ((-20) # 1)
  /\ Forall (fun f => Qlt Audio.CHIME_THRESHOLD_DB (snd f)
                      /\ fst f - t0 < Audio.CHIME_MIN_DURATION_MS)
            [(t0 + 250, (-20) # 1)]
  /\ Audio.chimeCount
       (Audio.tick (Audio.frames (Audio.tick st t0 ((-20) # 1))
                                 [(t0 + 250, (-20) # 1)])
                   (t0 + 500) ((-20) # 1))
     = S (Audio.chimeCount st).
Proof.
  intros st.
  assert (H1 : Audio.chimeActiveRef st = false) by reflexivity.
  assert (H2 : Qlt Audio.CHIME_THRESHOLD_DB ((-20) # 1)) by reflexivity.
  assert (H3 : Forall (fun f => Qlt Audio.CHIME_THRESHOLD_DB (snd f)
                                /\ fst f - t0 < Audio.CHIME_MIN_DURATION_MS)
                      [(t0 + 250, (-20) # 1)]).
  { constructor; [split; [reflexivity|vm_compute; reflexivity]|constructor]. }
  split; [exact H1|]. split; [exact H2|]. split; [exact H3|].
  destruct (chime_activation st t0 ((-20) # 1) [(t0 + 250, (-20) # 1)] H1 H2 H3)
    as (_ & _ & Emit).
  destruct (Emit (t0 + 500) ((-20) # 1)) as (C & _); [reflexivity|vm_compute; discriminate|].
  exact C.
Defined.

Lemma no_second_chime_within_min_duration_witness :
  let st := Audio.tick (listen []) t0 ((-20) # 1) in
  let later := [Audio.Frame (t0 + 516) ((-20) # 1)] in
  Audio.emits st (t0 + 500) ((-20) # 1) = true
  /\ forallb (Audio.since (t0 + 500)) later = true
  /\ Audio.emits (fold_left (Audio.react blueLine) later
                            (Audio.tick st (t0 + 500) ((-20) # 1)))
                 (t0 + 1016) ((-20) # 1) = true
  /\ t0 + 500 + Audio.CHIME_MIN_DURATION_MS <= t0 + 1016.
Proof.
  intros st later.
  assert (H1 : Audio.emits st (t0 + 500) ((-20) # 1) = true) by (vm_compute; reflexivity).
  assert (H2 : forallb (Audio.since (t0 + 500)) later = true) by (vm_compute; reflexivity).
  assert (H3 : Audio.emits (fold_left (Audio.react blueLine) later
                                      (Audio.tick st (t0 + 500) ((-20) # 1)))
                           (t0 + 1016) ((-20) # 1) = true)
    by (vm_compute; reflexivity).
  split; [exact H1|]. split; [exact H2|]. split; [exact H3|].
  destruct (no_second_chime_within_min_duration blueLine st (t0 + 500) ((-20) # 1)
              later (t0 + 1016) ((-20) # 1) H1 H2) as (_ & _ & Late).
  exact (Late H3).
Defined.

(** C4, counterexample. With the band energy at -20 dBFS throughout, a
    chime is emitted at 500 ms, a new activation is recognised at 516 ms
    and a second chime is emitted at 1016 ms, 516 ms after the first. *)
Lemma chime_repeats_within_cooldown :
  let inputs := map (fun f => Audio.Frame (fst f) (snd f)) loudFrames in
  Forall (fun f => Qlt Audio.CHIME_THRESHOLD_DB (snd f)) loudFrames
  /\ Audio.eventLog (listen inputs)
     = [{| Audio.time := t0; Audio.source := Audio.speech;
           Audio.detail := Audio.ListeningStarted |};
        {| Audio.time := t0; Audio.source := Audio.chime;
           Audio.detail := Audio.MonitoringStarted |};
        {| Audio.time := t0 + 500; Audio.source := Audio.chime;
           Audio.detail := Audio.ChimeNo 1 ((-20) # 1) |};
        {| Audio.time := t0 + 1016; Audio.source := Audio.chime;
           Audio.detail := Audio.ChimeNo 2 ((-20) # 1) |}]
  /\ Audio.chimeCount (listen inputs) = 2%nat
  /\ (t0 + 1016) - (t0 + 500) < 2000
  /\ Audio.chimeActiveRef (listen (firstn 3 inputs)) = true
  /\ Audio.chimeStartRef (listen (firstn 3 inputs)) = t0 + 516.
Proof.
  split; [repeat constructor|]. vm_compute. repeat split.
Qed.

(** Three announcements of the same station leave one speech match. *)
Example repeated_announcement_matches_once :
  Audio.speechMatches
    (listen [announcement "next station Tao Poon" (t0 + 1000);
             announcement "Tao Poon" (t0 + 3000);
             announcement "this is tao poon station" (t0 + 5000)])
  = ["BL10"%string].
Proof. vm_compute. reflexivity. Qed.

End Sessions.

(** * Further properties of the two components *)

Section RouteFacts.

Lemma slice_length {A} (l : list A) (a b : Z) :
  0 <= a -> a <= b -> b <= Z.of_nat (length l) ->
  Z.of_nat (length (slice l a b)) = b - a.
Proof.
  intros Ha Hab Hb. rewrite slice_in_range by assumption.
  rewrite length_firstn, length_skipn. lia.
Qed.

Lemma slice_incl {A} (l : list A) (a b : Z) (x : A) :
  In x (slice l a b) -> In x l.
Proof.
  unfold slice. cbv zeta.
  set (n := Z.to_nat (if a <? 0 then _ else _)). set (k := Z.to_nat _).
  intros H. rewrite <- (firstn_skipn n l). apply in_or_app. right.
  rewrite <- (firstn_skipn k (skipn n l)). apply in_or_app. now left.
Qed.

Lemma LineId_eqb_eq a b : LineId_eqb a b = true <-> a = b.
Proof. destruct a, b; cbn; split; congruence. Qed.

(** X1. The route from the destination back to the origin is the route
    from the origin to the destination, reversed: for every station
    table, line and pair of ids, also when the two ids are the same or
    one of them is not on the line. *)
Theorem route_back_is_route_reversed
  (stations : list Station) (lineId : LineId) (originId destinationId : string) :
  getStationsOnRoute stations lineId destinationId originId
  = rev (getStationsOnRoute stations lineId originId destinationId).
Proof.
  unfold getStationsOnRoute. cbv zeta.
  set (l := List.filter (fun s => LineId_eqb (line s) lineId) stations).
  pose proof (findIndex_range (fun s => String.eqb (id s) originId) l) as Ri.
  pose proof (findIndex_range (fun s => String.eqb (id s) destinationId) l) as Rj.
  set (i := findIndex (fun s => String.eqb (id s) originId) l) in *.
  set (j := findIndex (fun s => String.eqb (id s) destinationId) l) in *.
  rewrite (orb_comm (j =? -1)).
  destruct (Z.eqb_spec i (-1)) as [Ei|Ei]; [reflexivity|].
  destruct (Z.eqb_spec j (-1)) as [Ej|Ej]; [reflexivity|]. cbn [orb].
  destruct (Z.ltb_spec i j) as [Lij|Lij], (Z.ltb_spec j i) as [Lji|Lji];
    try lia; try reflexivity.
  - now rewrite rev_involutive.
  - assert (E : i = j) by lia. rewrite E, rev_involutive.
    assert (L : Z.of_nat (length (slice l j (j + 1))) = 1).
    { rewrite slice_length by lia. lia. }
    destruct (slice l j (j + 1)) as [|x [|y r]]; cbn in L; try lia. reflexivity.
Qed.

(** X2. A route holds only stations of the table that are on the chosen
    line; when both ids are on the line it has one station more than the
    distance between their positions on the line; and it repeats no
    station when the table repeats none. *)
Theorem route_extent
  (stations : list Station) (lineId : LineId) (originId destinationId : string) :
  let lineStations := List.filter (fun s => LineId_eqb (line s) lineId) stations in
  let originIdx := findIndex (fun s => String.eqb (id s) originId) lineStations in
  let destIdx := findIndex (fun s => String.eqb (id s) destinationId) lineStations in
  let route := getStationsOnRoute stations lineId originId destinationId in
  (forall s, In s route -> In s stations /\ line s = lineId)
  /\ (originIdx <> -1 -> destIdx <> -1 ->
      Z.of_nat (length route) = Z.abs (originIdx - destIdx) + 1)
  /\ (List.NoDup stations -> List.NoDup route).
Proof.
  intros l i j route.
  pose proof (findIndex_range (fun s => String.eqb (id s) originId) l) as Ri.
  pose proof (findIndex_range (fun s => String.eqb (id s) destinationId) l) as Rj.
  fold i in Ri. fold j in Rj.
  assert (Shape : route = []
                  \/ (i <> -1 /\ j <> -1 /\ i < j /\ route = slice l i (j + 1))
                  \/ (i <> -1 /\ j <> -1 /\ j <= i
                      /\ route = rev (slice l j (i + 1)))).
  { unfold route, getStationsOnRoute. cbv zeta. fold l. fold i. fold j.
    destruct (Z.eqb_spec i (-1)); [now left|].
    destruct (Z.eqb_spec j (-1)); [now left|]. cbn [orb].
    destruct (Z.ltb_spec i j); [right; left|right; right]; auto. }
  repeat split.
  - assert (Hl : In s l).
    { destruct Shape as [E|[(_ & _ & _ & E)|(_ & _ & _ & E)]]; rewrite E in H.
      + destruct H.
      + eapply slice_incl; exact H.
      + apply in_rev in H. eapply slice_incl; exact H. }
    apply filter_In in Hl. tauto.
  - assert (Hl : In s l).
    { destruct Shape as [E|[(_ & _ & _ & E)|(_ & _ & _ & E)]]; rewrite E in H.
      + destruct H.
      + eapply slice_incl; exact H.
      + apply in_rev in H. eapply slice_incl; exact H. }
    apply filter_In in Hl. apply LineId_eqb_eq. tauto.
  - intros Hi Hj.
    destruct Shape as [E|[(_ & _ & L & E)|(_ & _ & L & E)]]; rewrite E.
    + exfalso. revert E. unfold route, getStationsOnRoute. cbv zeta.
      fold l. fold i. fold j.
      destruct (Z.eqb_spec i (-1)); [contradiction|].
      destruct (Z.eqb_spec j (-1)); [contradiction|]. cbn [orb].
      destruct (Z.ltb_spec i j) as [L|L]; intros E.
      * apply (f_equal (fun x => Z.of_nat (length x))) in E.
        rewrite slice_length in E by lia. cbn in E. lia.
      * apply (f_equal (fun x => Z.of_nat (length x))) in E.
        rewrite length_rev, slice_length in E by lia. cbn in E. lia.
    + rewrite slice_length by lia. lia.
    + rewrite length_rev, slice_length by lia. lia.
  - intros N.
    assert (Nl : List.NoDup l) by now apply List.NoDup_filter.
    assert (Ns : forall a b, List.NoDup (slice l a b)).
    { intros a b. unfold slice. cbv zeta.
      set (k := Z.to_nat _). set (n := Z.to_nat _).
      rewrite <- (firstn_skipn n l) in Nl. apply List.NoDup_app_remove_l in Nl.
      rewrite <- (firstn_skipn k (skipn n l)) in Nl.
      now apply List.NoDup_app_remove_r in Nl. }
    destruct Shape as [E|[(_ & _ & _ & E)|(_ & _ & _ & E)]]; rewrite E.
    + constructor.
    + apply Ns.
    + apply List.NoDup_rev, Ns.
Qed.

End RouteFacts.

Section MotionSessionFacts.

Import Motion.

#[local] Arguments confirmStop : simpl never.

Lemma confirmStop_frame now st :
  running (confirmStop now st) = running st
  /\ routeStations (confirmStop now st) = routeStations st.
Proof. unfold confirmStop. destruct (_ && _); cbn; split; reflexivity. Qed.

Lemma classify_frame now v st :
  running (classify now v st) = running st
  /\ routeStations (classify now v st) = routeStations st.
Proof.
  unfold classify.
  repeat match goal with
         | |- context [if ?c then _ else _] => destruct c; cbn
         end;
  rewrite ?(proj1 (confirmStop_frame _ _)), ?(proj2 (confirmStop_frame _ _));
  cbn; split; reflexivity.
Qed.

Lemma handleMotion_frame st ev :
  running (handleMotion st ev) = running st
  /\ routeStations (handleMotion st ev) = routeStations st
  /\ routeRef (handleMotion st ev) = routeRef st.
Proof.
  unfold handleMotion. destruct (magnitude ev) as [m|]; [|repeat split].
  cbv zeta.
  repeat match goal with
         | |- context [if ?c then _ else _] => destruct c
         end;
  rewrite ?(proj1 (classify_frame _ _ _)), ?(proj2 (classify_frame _ _ _)),
    ?(proj2 (proj2 (classify_buffer _ _ _)));
  unfold trackSampleRate; cbn;
  repeat match goal with
         | |- context [if ?c then _ else _] => destruct c; cbn
         end; repeat split.
Qed.

Lemma handleMotion_buffer st ev m :
  magnitude ev = Some m ->
  bufferRef (handleMotion st ev) = window (bufferRef st) m.
Proof.
  intros Hm.
  destruct (handleMotion_reading st ev m Hm) as (st1 & _ & _ & B & Short & Full).
  destruct (Nat.ltb_spec (length (window (bufferRef st) m)) WINDOW_SIZE) as [L|L].
  - destruct (Short L) as [_ E]. now rewrite E.
  - destruct (Full L) as [_ E]. rewrite E.
    now rewrite (proj1 (classify_buffer _ _ _)).
Qed.

Lemma window_skipn (buffer : list Q) m :
  (length buffer <= WINDOW_SIZE)%nat ->
  window buffer m
  = skipn (length (buffer ++ [m]) - WINDOW_SIZE) (buffer ++ [m]).
Proof.
  intros H. unfold window. cbv zeta. rewrite length_app. cbn [length].
  destruct (Nat.ltb_spec WINDOW_SIZE (length buffer + 1)) as [L|L].
  - replace (length buffer + 1 - WINDOW_SIZE)%nat with 1%nat by lia.
    reflexivity.
  - replace (length buffer + 1 - WINDOW_SIZE)%nat with 0%nat by lia.
    reflexivity.
Qed.

(** X3. The buffer is a sliding window: after any stream of events,
    starting from a buffer of at most [WINDOW_SIZE] readings, it holds the
    last [WINDOW_SIZE] of the readings received (those of events without
    an acceleration are not received), oldest first, or all of them when
    there are fewer. *)
Theorem buffer_is_sliding_window (st : State) (events : list DeviceMotionEvent) :
  (length (bufferRef st) <= WINDOW_SIZE)%nat ->
  let readings := bufferRef st ++ omap magnitude events in
  bufferRef (feed st events) = skipn (length readings - WINDOW_SIZE) readings
  /\ (length (bufferRef (feed st events)) <= WINDOW_SIZE)%nat.
Proof.
  revert st. induction events as [|ev events IH]; intros st H readings.
  - subst readings. cbn. rewrite app_nil_r.
    replace (length (bufferRef st) - WINDOW_SIZE)%nat with 0%nat by lia.
    now split.
  - cbn [feed fold_left]. fold (feed (handleMotion st ev) events).
    destruct (magnitude ev) as [m|] eqn:Hm.
    + pose proof (handleMotion_buffer st ev m Hm) as B.
      rewrite window_skipn in B by exact H.
      assert (L : (length (bufferRef (handleMotion st ev)) <= WINDOW_SIZE)%nat).
      { rewrite B, length_skipn, length_app. cbn. lia. }
      destruct (IH (handleMotion st ev) L) as [E Hl]. split; [|exact Hl].
      rewrite E, B. subst readings. cbn [omap list_omap]. rewrite Hm.
      set (k := (length (bufferRef st ++ [m]) - WINDOW_SIZE)%nat).
      assert (Hk : (k <= length (bufferRef st ++ [m]))%nat) by (unfold k; lia).
      replace (bufferRef st ++ m :: omap magnitude events)
        with ((bufferRef st ++ [m]) ++ omap magnitude events)
        by now rewrite <- app_assoc.
      rewrite <- (drop_app_le _ (omap magnitude events) _ Hk).
      rewrite skipn_skipn. f_equal.
      rewrite length_skipn, !length_app. rewrite length_app in Hk. unfold k in *.
      rewrite !length_app. cbn [length] in *. lia.
    + assert (E : handleMotion st ev = st) by (unfold handleMotion; now rewrite Hm).
      rewrite E. subst readings. cbn [omap list_omap]. rewrite Hm. now apply IH.
Qed.


(** What [confirmStop] does to the verdict cells. *)
Lemma confirmStop_cells now st :
  pendingStopRef (confirmStop now st) = false
  /\ stopStartTimeRef (confirmStop now st) = stopStartTimeRef st
  /\ stopCountRef (confirmStop now st)
     = (if qualifies now st then S (stopCountRef st) else stopCountRef st)
  /\ lastConfirmedStopRef (confirmStop now st)
     = (if qualifies now st then now else lastConfirmedStopRef st)
  /\ detectedStops (confirmStop now st)
     = (if qualifies now st then detectedStops st ++ [stopAt now st]
        else detectedStops st)
  /\ ignoredStops (confirmStop now st)
     = (if qualifies now st then ignoredStops st else S (ignoredStops st)).
Proof.
  unfold confirmStop, qualifies, stopAt. cbv zeta.
  destruct (_ && _); cbn; repeat split.
Qed.

Ltac confirm_cells :=
  repeat match goal with
         | |- context [pendingStopRef (confirmStop ?n ?s)] =>
             rewrite (proj1 (confirmStop_cells n s))
         | |- context [stopStartTimeRef (confirmStop ?n ?s)] =>
             rewrite (proj1 (proj2 (confirmStop_cells n s)))
         | |- context [stopCountRef (confirmStop ?n ?s)] =>
             rewrite (proj1 (proj2 (proj2 (confirmStop_cells n s))))
         | |- context [lastConfirmedStopRef (confirmStop ?n ?s)] =>
             rewrite (proj1 (proj2 (proj2 (proj2 (confirmStop_cells n s)))))
         | |- context [detectedStops (confirmStop ?n ?s)] =>
             rewrite (proj1 (proj2 (proj2 (proj2 (proj2 (confirmStop_cells n s))))))
         | |- context [ignoredStops (confirmStop ?n ?s)] =>
             rewrite (proj2 (proj2 (proj2 (proj2 (proj2 (confirmStop_cells n s))))))
         | |- context [stateRef (confirmStop ?n ?s)] =>
             rewrite (proj1 (confirmStop_keeps n s))
         | |- context [motionState (confirmStop ?n ?s)] =>
             rewrite (proj1 (proj2 (confirmStop_keeps n s)))
         | |- context [stateCounterRef (confirmStop ?n ?s)] =>
             rewrite (proj1 (proj2 (proj2 (confirmStop_keeps n s))))
         | |- context [routeRef (confirmStop ?n ?s)] =>
             rewrite (proj1 (proj2 (proj2 (proj2 (proj2 (proj2 (confirmStop_keeps n s)))))))
         | |- context [running (confirmStop ?n ?s)] =>
             rewrite (proj1 (confirmStop_frame n s))
         | |- context [routeStations (confirmStop ?n ?s)] =>
             rewrite (proj2 (confirmStop_frame n s))
         end.

Ltac classify_cases :=
  unfold classify;
  repeat match goal with
         | |- context [if ?c then _ else _] =>
             lazymatch c with
             | qualifies _ _ => fail
             | _ => destruct c eqn:?
             end
         end; cbn; confirm_cells; cbn.

(** A step of the state machine only ever appends to the detected stops
    and only ever adds to the ignored counter. *)
Lemma classify_grows now v st :
  (exists more, detectedStops (classify now v st) = detectedStops st ++ more)
  /\ (ignoredStops st <= ignoredStops (classify now v st))%nat
  /\ (stopCountRef st <= stopCountRef (classify now v st))%nat.
Proof.
  classify_cases;
    repeat match goal with
           | |- context [qualifies ?n ?s] => destruct (qualifies n s)
           end;
    repeat split; try lia;
    first [ now exists [] ; now rewrite app_nil_r
          | exists []; now rewrite app_nil_r
          | eexists; reflexivity ].
Qed.


Ltac bounds :=
  repeat match goal with
         | H : (_ <=? _)%nat = true |- _ => apply Nat.leb_le in H
         | H : (_ <=? _)%nat = false |- _ => apply Nat.leb_gt in H
         | H : (_ <=? _) = true |- _ => apply Z.leb_le in H
         | H : (_ <=? _) = false |- _ => apply Z.leb_gt in H
         | H : (_ =? _) = true |- _ => apply Z.eqb_eq in H
         | H : (_ =? _) = false |- _ => apply Z.eqb_neq in H
         end;
  unfold MIN_STOP_DURATION, MIN_MOVE_DURATION, MIN_STOP_MS, MIN_GAP_MS in *.

Lemma MotionState_eqb_eq a b : MotionState_eqb a b = true <-> a = b.
Proof. destruct a, b; cbn; split; congruence. Qed.

Lemma classify_steady now v st : steady st -> steady (classify now v st).
Proof.
  intros (P & D & C). unfold steady.
  classify_cases;
    repeat match goal with
           | H : negb _ = true |- _ => apply negb_true_iff in H
           | H : negb _ = false |- _ => apply negb_false_iff in H
           | H : MotionState_eqb _ _ = true |- _ => apply MotionState_eqb_eq in H
           end;
    cbn -[Nat.leb Z.leb] in *; bounds; repeat split; try tauto; try congruence;
    try lia.
Qed.

Lemma stationNameFor_returns route stopIdx :
  stationNameFor route stopIdx = Returns (valueOf (stationNameFor route stopIdx)).
Proof.
  destruct (nth_error route stopIdx) as [s|] eqn:E.
  - now rewrite (stationNameFor_in_range route stopIdx s E).
  - rewrite stationNameFor_beyond; [reflexivity|]. now apply nth_error_None.
Qed.

Lemma confirmStop_labelled now st : labelled st -> labelled (confirmStop now st).
Proof.
  intros (L & I & R & N). unfold labelled. confirm_cells.
  destruct (qualifies now st); [|now repeat split].
  repeat split.
  - rewrite length_app, L. cbn. lia.
  - rewrite map_app, I, seq_S. reflexivity.
  - exact R.
  - apply Forall_app. split; [exact N|]. constructor; [|constructor].
    cbn. apply stationNameFor_returns.
Qed.

Lemma labelled_same st st' :
  detectedStops st' = detectedStops st -> stopCountRef st' = stopCountRef st ->
  routeRef st' = routeRef st -> routeStations st' = routeStations st ->
  labelled st -> labelled st'.
Proof. unfold labelled. intros -> -> -> ->. tauto. Qed.

Lemma classify_labelled now v st : labelled st -> labelled (classify now v st).
Proof.
  intros H. unfold classify.
  repeat match goal with
         | |- context [if ?c then _ else _] => destruct c
         end;
  try exact H;
  first [ (eapply labelled_same; [| | | |exact H]; reflexivity)
        | (eapply labelled_same;
           [| | | |apply (confirmStop_labelled now); eapply labelled_same;
                   [| | | |exact H]]; reflexivity)
        | (apply confirmStop_labelled; eapply labelled_same; [| | | |exact H];
           reflexivity) ].
Qed.


Lemma StronglySorted_snoc {A} (R : A -> A -> Prop) (l : list A) (x : A) :
  StronglySorted R l -> Forall (fun a => R a x) l -> StronglySorted R (l ++ [x]).
Proof.
  induction 1 as [|a l S IH F]; intros Fx; cbn.
  - constructor; constructor.
  - inversion Fx; subst. constructor; [now apply IH|].
    apply Forall_app. split; [exact F|]. constructor; [assumption|constructor].
Qed.

Lemma confirmStop_paced now st : now <> 0 -> paced st -> paced (confirmStop now st).
Proof.
  intros Hn (T & E & F & S). unfold paced, tallies in *. confirm_cells.
  destruct (qualifies now st) eqn:Q; [|repeat split; try assumption; apply T].
  unfold qualifies in Q. apply andb_true_iff in Q as [Q1 Q2].
  apply orb_true_iff in Q2. bounds.
  assert (Old : Forall (fun d => time d + 15000 <= now
                                 /\ time d + (15000 + 60000) <= stopStartTimeRef st)
                       (detectedStops st)).
  { destruct Q2 as [Q2|Q2].
    - rewrite Z.eqb_eq in Q2. rewrite (E (proj2 T Q2)). constructor.
    - rewrite Z.leb_le in Q2. eapply List.Forall_impl; [|exact F].
      cbn. intros d Hd. lia. }
  repeat split.
  - discriminate.
  - intros ->. contradiction.
  - discriminate.
  - apply Forall_app. split.
    + eapply List.Forall_impl; [|exact Old]. cbn. tauto.
    + constructor; [cbn; lia|constructor].
  - apply StronglySorted_snoc; [exact S|].
    eapply List.Forall_impl; [|exact Old]. cbn. tauto.
Qed.

Lemma paced_same st st' :
  detectedStops st' = detectedStops st -> stopCountRef st' = stopCountRef st ->
  lastConfirmedStopRef st' = lastConfirmedStopRef st ->
  paced st -> paced st'.
Proof. unfold paced, tallies. intros -> -> ->. tauto. Qed.

Lemma classify_paced now v st : now <> 0 -> paced st -> paced (classify now v st).
Proof.
  intros Hn H. unfold classify.
  repeat match goal with
         | |- context [if ?c then _ else _] => destruct c
         end;
  try exact H;
  first [ (eapply paced_same; [| | |exact H]; reflexivity)
        | (eapply paced_same;
           [| | |apply (confirmStop_paced now); [exact Hn|]; eapply paced_same;
                 [| | |exact H]]; reflexivity)
        | (apply confirmStop_paced; [exact Hn|]; eapply paced_same; [| | |exact H];
           reflexivity) ].
Qed.

(** A handled event is a step of the state machine, or none, on a state
    that differs from the given one only in the window, the displayed
    variance and the sample rate display. *)
Lemma handleMotion_step st ev :
  exists st1,
    machine st1 = machine st /\ routeRef st1 = routeRef st
    /\ routeStations st1 = routeStations st /\ running st1 = running st
    /\ (handleMotion st ev = st1
        \/ exists v, handleMotion st ev = classify (clock ev) v st1).
Proof.
  destruct (handleMotion_frame st ev) as (Fr & Fs & _).
  destruct (magnitude ev) as [m|] eqn:Hm.
  - destruct (handleMotion_reading st ev m Hm) as (st1 & M & R & _ & Short & Full).
    exists st1.
    destruct (Nat.ltb_spec (length (window (bufferRef st) m)) WINDOW_SIZE) as [L|L].
    + destruct (Short L) as [_ E]. rewrite E in Fr, Fs. repeat split; auto.
    + destruct (Full L) as [_ E]. rewrite E in Fr, Fs.
      rewrite (proj1 (classify_frame _ _ _)) in Fr.
      rewrite (proj2 (classify_frame _ _ _)) in Fs.
      repeat split; auto. right. eexists. exact E.
  - exists st. repeat split. left. unfold handleMotion. now rewrite Hm.
Qed.

Lemma handleMotion_keeps (P : State -> Prop) st ev :
  (forall s s', machine s' = machine s -> routeRef s' = routeRef s ->
                routeStations s' = routeStations s -> running s' = running s ->
                P s -> P s') ->
  (forall v s, P s -> P (classify (clock ev) v s)) ->
  P st -> P (handleMotion st ev).
Proof.
  intros Same Step H.
  destruct (handleMotion_step st ev) as (st1 & M & R & Rs & Ru & [E|[v E]]);
    rewrite E; [|apply Step]; now apply (Same st st1).
Qed.

Lemma steady_same s s' :
  machine s' = machine s -> routeRef s' = routeRef s ->
  routeStations s' = routeStations s -> running s' = running s ->
  steady s -> steady s'.
Proof.
  unfold machine, steady. intros M _ _ ->.
  injection M as -> -> -> -> _ _ _ _ _. tauto.
Qed.

Lemma labelled_same' s s' :
  machine s' = machine s -> routeRef s' = routeRef s ->
  routeStations s' = routeStations s -> running s' = running s ->
  labelled s -> labelled s'.
Proof.
  unfold machine. intros M R Rs _. injection M as _ _ _ _ _ _ C D _.
  now apply labelled_same.
Qed.

Lemma paced_same' s s' :
  machine s' = machine s -> routeRef s' = routeRef s ->
  routeStations s' = routeStations s -> running s' = running s ->
  paced s -> paced s'.
Proof.
  unfold machine. intros M _ _ _. injection M as _ _ _ _ _ L C D _.
  now apply paced_same.
Qed.

Lemma react_steady stations st i : steady st -> steady (react stations st i).
Proof.
  intros H. destruct i as [l o d g now| |ev]; cbn [react].
  - unfold handleStart. destruct (_ || _); [exact H|].
    destruct g; cbn; [|exact H]. unfold steady. cbn.
    repeat split; try discriminate. unfold MIN_MOVE_DURATION. lia.
  - destruct H as (P & D & C). unfold steady, handleStop. cbn.
    repeat split; [exact P|discriminate|exact C].
  - destruct (running st); [|exact H].
    apply handleMotion_keeps; [apply steady_same| |exact H].
    intros v s. apply classify_steady.
Qed.

Lemma react_labelled stations st i : labelled st -> labelled (react stations st i).
Proof.
  intros H. destruct i as [l o d g now| |ev]; cbn [react].
  - unfold handleStart. destruct (_ || _); [exact H|].
    destruct g; cbn; [|exact H]. unfold labelled. cbn.
    repeat split; constructor.
  - exact H.
  - destruct (running st); [|exact H].
    apply handleMotion_keeps; [apply labelled_same'| |exact H].
    intros v s. apply classify_labelled.
Qed.

Lemma react_paced stations st i :
  clockRuns i = true -> paced st -> paced (react stations st i).
Proof.
  intros Hc H. destruct i as [l o d g now| |ev]; cbn [react].
  - unfold handleStart. destruct (_ || _); [exact H|].
    destruct g; cbn; [|exact H]. unfold paced, tallies. cbn.
    repeat split; constructor.
  - exact H.
  - destruct (running st); [|exact H]. cbn in Hc. apply Z.ltb_lt in Hc.
    apply handleMotion_keeps; [apply paced_same'| |exact H].
    intros v s. apply classify_paced. lia.
Qed.

Lemma session_keeps (P : State -> Prop) stations (ok : Input -> bool) :
  (forall st i, ok i = true -> P st -> P (react stations st i)) ->
  forall inputs st, forallb ok inputs = true -> P st ->
                    P (fold_left (react stations) inputs st).
Proof.
  intros Step. induction inputs as [|i inputs IH]; intros st Hok H; [exact H|].
  cbn in Hok. apply andb_true_iff in Hok as [Hi Hok]. cbn [fold_left].
  apply IH; [exact Hok|]. now apply Step.
Qed.


(** X5. Whatever the user presses and the sensor delivers, the detected
    stops are as many as the stop counter says, the k-th of them (from 0)
    has index k + 1 and the name [stationNameFor] gives for that position
    of the route on display, and the route the handler reads is the route
    on display. *)
Theorem detected_stops_follow_route (stations : list Station) (inputs : list Input) :
  let st := fold_left (react stations) inputs mounted in
  length (detectedStops st) = stopCountRef st
  /\ routeRef st = routeStations st
  /\ (forall k d,
        nth_error (detectedStops st) k = Some d ->
        index d = S k
        /\ stationNameFor (routeStations st) (S k) = Returns (stationName d)).
Proof.
  intros st.
  assert (H : labelled st).
  { apply (session_keeps labelled stations (fun _ => true)).
    - intros s i _. apply react_labelled.
    - now apply forallb_forall.
    - unfold labelled. cbn. repeat split; constructor. }
  destruct H as (L & I & R & N). repeat split; [exact L|exact R| |].
  - pose proof (map_nth_error index k _ H) as E.
    rewrite I, nth_error_seq in E.
    destruct (Nat.ltb k (stopCountRef st)); now inversion E.
  - assert (Ek : index d = S k).
    { pose proof (map_nth_error index k _ H) as E.
      rewrite I, nth_error_seq in E.
      destruct (Nat.ltb k (stopCountRef st)); now inversion E. }
    rewrite <- Ek, <- R.
    apply nth_error_In in H. rewrite List.Forall_forall in N. now apply N.
Qed.

(** X6. With a clock that reads past the epoch, every detected stop began
    at least [MIN_STOP_MS] before the last confirmation, and any two
    detected stops began at least [MIN_STOP_MS + MIN_GAP_MS] apart, in the
    order of the list. *)
Theorem detected_stops_are_spaced (stations : list Station) (inputs : list Input) :
  forallb clockRuns inputs = true ->
  let st := fold_left (react stations) inputs mounted in
  Forall (fun d => time d + MIN_STOP_MS <= lastConfirmedStopRef st)
         (detectedStops st)
  /\ StronglySorted (fun a b => time a + (MIN_STOP_MS + MIN_GAP_MS) <= time b)
                    (detectedStops st).
Proof.
  intros Hc st.
  assert (H : paced st).
  { apply (session_keeps paced stations clockRuns).
    - intros s i. apply react_paced.
    - exact Hc.
    - unfold paced, tallies. cbn. repeat split; constructor. }
  destruct H as (_ & _ & F & S). now split.
Qed.

(** X7. Whatever the user presses and the sensor delivers, a stop is
    pending only while the detector is [stopped], the state on display is
    the state of the machine while a session runs, and the counter of
    consecutive windows stays below [MIN_MOVE_DURATION]. *)
Theorem pending_stop_only_while_stopped (stations : list Station) (inputs : list Input) :
  let st := fold_left (react stations) inputs mounted in
  (pendingStopRef st = true -> stateRef st = stopped)
  /\ (running st = true -> motionState st = stateRef st)
  /\ (stateCounterRef st < MIN_MOVE_DURATION)%nat.
Proof.
  intros st.
  apply (session_keeps steady stations (fun _ => true)).
  - intros s i _. apply react_steady.
  - now apply forallb_forall.
  - unfold steady. cbn. repeat split; try discriminate.
    unfold MIN_MOVE_DURATION. lia.
Qed.

(** X4. Events without an acceleration are dropped without a trace: a
    stream of events leaves every cell of the component as the stream with
    those events removed does. *)
Theorem malformed_events_are_dropped (st : State) (events : list DeviceMotionEvent) :
  feed st events
  = feed st (List.filter (fun ev => match magnitude ev with
                                    | Some _ => true
                                    | None => false
                                    end) events).
Proof.
  unfold feed. revert st. induction events as [|ev events IH]; intros st;
    [reflexivity|].
  cbn [List.filter]. destruct (magnitude ev) as [m|] eqn:Hm; cbn [fold_left].
  - apply IH.
  - assert (E : handleMotion st ev = st) by (unfold handleMotion; now rewrite Hm).
    rewrite E. apply IH.
Qed.

Lemma handleMotion_grows st ev :
  (exists more, detectedStops (handleMotion st ev) = detectedStops st ++ more)
  /\ (ignoredStops st <= ignoredStops (handleMotion st ev))%nat
  /\ (stopCountRef st <= stopCountRef (handleMotion st ev))%nat.
Proof.
  destruct (handleMotion_step st ev) as (st1 & M & _ & _ & _ & [E|[v E]]);
    unfold machine in M; injection M as _ _ _ _ _ _ C D I; rewrite E.
  - rewrite C, D, I. repeat split; try lia. exists []. now rewrite app_nil_r.
  - rewrite <- C, <- D, <- I. apply classify_grows.
Qed.

(** X8. Along a stream of sensor events the list of detected stops is
    only extended at its end, and neither the count of ignored stops nor
    the stop counter decreases. *)
Theorem detected_stops_only_grow (st : State) (events : list DeviceMotionEvent) :
  (exists more, detectedStops (feed st events) = detectedStops st ++ more)
  /\ (ignoredStops st <= ignoredStops (feed st events))%nat
  /\ (stopCountRef st <= stopCountRef (feed st events))%nat.
Proof.
  revert st. induction events as [|ev events IH]; intros st.
  - cbn. repeat split; try lia. exists []. now rewrite app_nil_r.
  - cbn [feed fold_left]. fold (feed (handleMotion st ev) events).
    destruct (handleMotion_grows st ev) as ([m1 E1] & I1 & C1).
    destruct (IH (handleMotion st ev)) as ([m2 E2] & I2 & C2).
    repeat split; try lia. exists (m1 ++ m2). now rewrite E2, E1, app_assoc.
Qed.

Lemma classify_before_moving now v s :
  pendingStopRef s = false -> stateRef s <> moving ->
  stateRef (classify now v s) = moving
  \/ (pendingStopRef (classify now v s) = false
      /\ stateRef (classify now v s) <> moving
      /\ detectedStops (classify now v s) = detectedStops s
      /\ ignoredStops (classify now v s) = ignoredStops s).
Proof.
  intros P N. classify_cases;
    repeat match goal with
           | H : negb _ = true |- _ => apply negb_true_iff in H
           | H : negb _ = false |- _ => apply negb_false_iff in H
           | H : MotionState_eqb _ _ = true |- _ => apply MotionState_eqb_eq in H
           end;
    cbn -[Nat.leb Z.leb] in *; try congruence;
    try (rewrite P in *; cbn -[Nat.leb Z.leb] in *; congruence);
    first [ left; reflexivity
          | right; repeat split;
            solve [assumption | reflexivity | congruence | discriminate] ].
Qed.

(** X9. No stop is counted before the train has moved: if no stop is
    pending and a stream of events changes the detected or the ignored
    stops, the detector was [moving] after some prefix of the stream. *)
Theorem no_stop_before_moving (st : State) (events : list DeviceMotionEvent) :
  pendingStopRef st = false ->
  detectedStops (feed st events) <> detectedStops st
  \/ ignoredStops (feed st events) <> ignoredStops st ->
  exists k, stateRef (feed st (firstn k events)) = moving.
Proof.
  revert st. induction events as [|ev events IH]; intros st P Changed.
  - cbn in Changed. destruct Changed as [C|C]; now elim C.
  - destruct (stateRef st) eqn:Hs;
      try (exists 0%nat; exact Hs).
    all: cbn [feed fold_left] in Changed;
      fold (feed (handleMotion st ev) events) in Changed;
      assert (Step : stateRef (handleMotion st ev) = moving
                     \/ (pendingStopRef (handleMotion st ev) = false
                         /\ detectedStops (handleMotion st ev) = detectedStops st
                         /\ ignoredStops (handleMotion st ev) = ignoredStops st)).
    1,3: destruct (handleMotion_step st ev) as (st1 & M & _ & _ & _ & [E|[v E]]);
      unfold machine in M; injection M as S1 _ _ P1 _ _ _ D1 I1; rewrite E;
      [ right; rewrite P1, D1, I1; auto
      | destruct (classify_before_moving (clock ev) v st1) as [Mv|(A & _ & B & C)];
        [congruence|congruence|now left|right; rewrite A, B, C; auto] ].
    all: destruct Step as [Mv|(P' & D' & I')];
      [ exists 1%nat; exact Mv
      | rewrite <- D', <- I' in Changed;
        destruct (IH (handleMotion st ev) P' Changed) as [k Hk];
        exists (S k); exact Hk ].
Qed.

End MotionSessionFacts.

Section StringFacts.

Open Scope string_scope.

Lemma append_cons (c : ascii) (a b : string) :
  String c a ++ b = String c (a ++ b).
Proof. reflexivity. Qed.

Lemma append_empty (b : string) : "" ++ b = b.
Proof. reflexivity. Qed.

Lemma append_empty_r (a : string) : a ++ "" = a.
Proof. induction a as [|c a IH]; [reflexivity|]. now rewrite append_cons, IH. Qed.

Lemma append_associative (a b c : string) : (a ++ b) ++ c = a ++ (b ++ c).
Proof.
  induction a as [|x a IH]; [reflexivity|]. now rewrite !append_cons, IH.
Qed.

Lemma prefix_spec (a b : string) :
  String.prefix a b = true <-> exists post, b = a ++ post.
Proof.
  revert b. induction a as [|c a IH]; intros b.
  - split; [intros _; now exists b|intros _; now destruct b].
  - destruct b as [|d b]; cbn.
    + split; [discriminate|intros [p H]; discriminate].
    + destruct (Ascii.ascii_dec c d) as [E|N].
      * subst d. rewrite IH. split; intros [p H]; exists p;
          rewrite append_cons in *; congruence.
      * split; [discriminate|]. intros [p H]. rewrite append_cons in H.
        congruence.
Qed.

(** [includes] is the substring relation. *)
Lemma includes_spec (s sub : string) :
  includes s sub = true <-> exists pre post, s = pre ++ sub ++ post.
Proof.
  induction s as [|c s IH]; cbn [includes].
  - rewrite orb_false_r, prefix_spec. split.
    + intros [p H]. now exists "", p.
    + intros (pre & post & H). destruct pre; [now exists post|discriminate].
  - rewrite orb_true_iff, prefix_spec, IH. split.
    + intros [[p H]|(pre & post & H)].
      * now exists "", p.
      * exists (String c pre), post. now rewrite append_cons, H.
    + intros (pre & post & H). destruct pre as [|d pre].
      * left. now exists post.
      * right. exists pre, post. rewrite append_cons in H. congruence.
Qed.

Lemma toLowerCase_app (a b : string) :
  toLowerCase (a ++ b) = toLowerCase a ++ toLowerCase b.
Proof.
  induction a as [|c a IH]; [reflexivity|].
  rewrite append_cons. cbn [toLowerCase]. now rewrite append_cons, IH.
Qed.

Lemma toLowerCase_length (a : string) :
  String.length (toLowerCase a) = String.length a.
Proof. induction a as [|c a IH]; cbn; [reflexivity|now rewrite IH]. Qed.

Lemma lowerChar_idem (c : ascii) : lowerChar (lowerChar c) = lowerChar c.
Proof.
  destruct c as [[] [] [] [] [] [] [] []]; vm_compute; reflexivity.
Qed.

Lemma toLowerCase_idem (a : string) : toLowerCase (toLowerCase a) = toLowerCase a.
Proof.
  induction a as [|c a IH]; cbn; [reflexivity|].
  now rewrite lowerChar_idem, IH.
Qed.

Lemma append_inj_length (a a' b b' : string) :
  String.length a = String.length a' -> a ++ b = a' ++ b' -> a = a' /\ b = b'.
Proof.
  revert a'. induction a as [|c a IH]; intros [|c' a'] L E;
    rewrite ?append_cons, ?append_empty in *; cbn [String.length] in L;
    try discriminate; [now split|].
  injection E as -> E. destruct (IH a') as [-> ->]; [lia|exact E|]. now split.
Qed.

(** A part of a lower-case string is lower-case. *)
Lemma lower_part (s pre p post : string) :
  toLowerCase s = s -> s = pre ++ p ++ post -> toLowerCase p = p.
Proof.
  intros L E. rewrite E, !toLowerCase_app in L.
  apply append_inj_length in L as [_ L]; [|apply toLowerCase_length].
  apply append_inj_length in L as [L _]; [exact L|apply toLowerCase_length].
Qed.

Lemma spaceless_snoc (s : string) (c : ascii) :
  spaceless s = true -> isSpace c = false ->
  spaceless (s ++ String c EmptyString) = true.
Proof.
  induction s as [|d s IH]; intros H Hc.
  - rewrite append_empty. cbn. now rewrite Hc.
  - rewrite append_cons. cbn [spaceless] in *.
    apply andb_true_iff in H as [H1 H2]. now rewrite H1, IH.
Qed.

Lemma splitFrom_pieces (s : string) : forall cur inRun,
  spaceless cur = true -> (inRun = true -> cur = EmptyString) ->
  Forall (fun p => spaceless p = true
                   /\ exists pre post, cur ++ s = pre ++ p ++ post)
         (splitFrom s cur inRun).
Proof.
  induction s as [|c s IH]; intros cur inRun Hc Hr; cbn [splitFrom].
  - constructor; [|constructor]. split; [exact Hc|].
    exists "", "". now rewrite !append_empty_r.
  - destruct (isSpace c) eqn:Sp.
    + assert (Tail : Forall (fun p => spaceless p = true
                                      /\ exists pre post,
                                           cur ++ String c s = pre ++ p ++ post)
                            (splitFrom s "" true)).
      { eapply List.Forall_impl; [|apply (IH "" true); auto].
        cbn. intros p (Hp & pre & post & E). split; [exact Hp|].
        exists (cur ++ String c pre), post. rewrite append_empty in E.
        now rewrite E, append_associative, append_cons. }
      destruct inRun.
      * rewrite (Hr eq_refl) in *. exact Tail.
      * constructor; [|exact Tail]. split; [exact Hc|].
        exists "", (String c s). reflexivity.
    + eapply List.Forall_impl; [|apply (IH (cur ++ String c "") false)].
      * cbn. intros p (Hp & pre & post & E). split; [exact Hp|].
        exists pre, post. now rewrite <- E, append_associative.
      * now apply spaceless_snoc.
      * discriminate.
Qed.


End StringFacts.

Section AudioSessionFacts.

Import Audio.

Lemma matchStationInText_find (text : string) (kws : list Keyword.t) :
  matchStationInText text kws
  = find (fun s => includes (toLowerCase text) (toLowerCase (Keyword.name s))
                   || existsb (fun kw => (4 <=? String.length kw)%nat
                                         && includes (toLowerCase text) kw)
                              (Keyword.keywords s))
         (sortBy byNameLengthDesc kws).
Proof. unfold matchStationInText. cbv zeta. apply scanStations_find. Qed.

(** X12. What a match means: the station returned is one of the list,
    and the lower-cased text contains its lower-cased name or one of its
    keywords of four characters or more; there is no match exactly when
    the text contains neither for any station of the list; and the match
    does not depend on the case of the text. *)
Theorem matchStationInText_meaning (text : string) (stationKeywords : list Keyword.t) :
  let lower := toLowerCase text in
  let named (s : Keyword.t) :=
    exists pre post,
      lower = (pre ++ toLowerCase (Keyword.name s) ++ post)%string in
  let worded (s : Keyword.t) :=
    exists kw pre post,
      In kw (Keyword.keywords s) /\ (4 <= String.length kw)%nat
      /\ lower = (pre ++ kw ++ post)%string in
  (forall s, matchStationInText text stationKeywords = Some s ->
             In s stationKeywords /\ (named s \/ worded s))
  /\ (matchStationInText text stationKeywords = None <->
      forall s, In s stationKeywords -> ~ named s /\ ~ worded s)
  /\ matchStationInText (toLowerCase text) stationKeywords
     = matchStationInText text stationKeywords.
Proof.
  intros lower named worded.
  assert (Hit : forall s,
             includes lower (toLowerCase (Keyword.name s))
             || existsb (fun kw => (4 <=? String.length kw)%nat && includes lower kw)
                        (Keyword.keywords s) = true
             <-> named s \/ worded s).
  { intros s. rewrite orb_true_iff, includes_spec, existsb_exists.
    apply or_iff_compat_l. split.
    - intros (kw & Hin & H). apply andb_true_iff in H as [L I].
      apply Nat.leb_le in L. apply includes_spec in I as (pre & post & E).
      now exists kw, pre, post.
    - intros (kw & pre & post & Hin & L & E). exists kw. split; [exact Hin|].
      apply andb_true_iff. split; [now apply Nat.leb_le|].
      apply includes_spec. now exists pre, post. }
  split; [|split].
  - intros s H. rewrite matchStationInText_find in H.
    apply find_some in H as [Hin H]. split.
    + eapply Permutation_in; [symmetry; apply sortBy_perm|exact Hin].
    + now apply Hit.
  - rewrite matchStationInText_find. split.
    + intros H s Hin.
      assert (F : ~ (named s \/ worded s)).
      { rewrite <- Hit. apply not_true_iff_false.
        apply (find_none _ _ H).
        eapply Permutation_in; [apply sortBy_perm|exact Hin]. }
      tauto.
    + intros H. destruct (find _ _) as [s|] eqn:F; [|reflexivity].
      apply find_some in F as [Hin F]. apply Hit in F.
      destruct (H s) as [N W];
        [eapply Permutation_in; [symmetry; apply sortBy_perm|exact Hin]|].
      tauto.
  - unfold matchStationInText. cbv zeta. now rewrite toLowerCase_idem.
Qed.

(** X13. [buildStationKeywords] keeps the ids and the names of the route,
    in order, and every keyword of a station has at least three
    characters, holds no white space, is in lower case and occurs in the
    lower-cased name of the station. *)
Theorem buildStationKeywords_words (routeStations : list Station) :
  map Keyword.id (buildStationKeywords routeStations) = map id routeStations
  /\ map Keyword.name (buildStationKeywords routeStations) = map name routeStations
  /\ Forall (fun k =>
               Forall (fun w => (3 <= String.length w)%nat
                                /\ spaceless w = true
                                /\ toLowerCase w = w
                                /\ includes (toLowerCase (Keyword.name k)) w = true)
                      (Keyword.keywords k))
            (buildStationKeywords routeStations).
Proof.
  unfold buildStationKeywords. rewrite !map_map.
  cbn [Keyword.id Keyword.name Keyword.keywords].
  split; [reflexivity|]. split; [reflexivity|].
  apply List.Forall_map. apply List.Forall_forall. intros s _.
  cbn [Keyword.id Keyword.name Keyword.keywords].
  apply List.Forall_forall. intros w Hw. apply filter_In in Hw as [Hw L].
  apply Nat.leb_le in L.
  pose proof (splitFrom_pieces (toLowerCase (name s)) EmptyString false
                eq_refl ltac:(discriminate)) as P.
  rewrite List.Forall_forall in P. destruct (P w Hw) as (Sp & pre & post & E).
  rewrite append_empty in E. repeat split; try assumption.
  - eapply lower_part; [apply toLowerCase_idem|exact E].
  - apply includes_spec. now exists pre, post.
Qed.

End AudioSessionFacts.

Section AudioLogFacts.

Import Audio.

Lemma onresult_log st ev :
  chimeCount (onresult st ev) = chimeCount st
  /\ routeStations (onresult st ev) = routeStations st
  /\ stationKeywordsRef (onresult st ev) = stationKeywordsRef st
  /\ (eventLog (onresult st ev) = eventLog st
      \/ exists found,
           matchStationInText (latest ev) (stationKeywordsRef st) = Some found
           /\ speechMatches (onresult st ev) = speechMatches st ++ [Keyword.id found]
           /\ eventLog (onresult st ev)
              = eventLog st ++ [{| time := heardAt ev; source := speech;
                                   detail := Matched (Keyword.name found) (latest ev) |}])
  /\ (speechMatches (onresult st ev) = speechMatches st
      \/ exists found,
           matchStationInText (latest ev) (stationKeywordsRef st) = Some found
           /\ speechMatches (onresult st ev) = speechMatches st ++ [Keyword.id found]).
Proof.
  unfold onresult. cbv zeta. cbn [stationKeywordsRef setTranscript].
  destruct (matchStationInText _ _) as [found|]; [|repeat split; now left].
  destruct (negb _); [|repeat split; now left].
  repeat split; right; exists found; repeat split.
Qed.

Lemma react_onRoute stations st i : onRoute st -> onRoute (react stations st i).
Proof.
  unfold onRoute. intros [K S].
  destruct i as [l o d sup mic now| |ev|now db|]; cbn [react].
  - unfold handleStart. destruct (_ || _); [now split|].
    destruct sup, mic; cbn; (split; [reflexivity|intros x []]).
  - now split.
  - destruct (onresult_log st ev) as (_ & R & Kw & _ & [E|(f & M & E)]);
      rewrite R, Kw, E; split; try assumption.
    intros x Hx. apply in_app_iff in Hx as [Hx|[<-|[]]]; [now apply S|].
    rewrite K, matchStationInText_find in M. apply find_some in M as [Hin _].
    apply (Permutation_in _ (Permutation_sym (sortBy_perm _ _))) in Hin.
    apply (in_map Keyword.id) in Hin.
    unfold buildStationKeywords in Hin. rewrite map_map in Hin. exact Hin.
  - unfold tick. cbv zeta. cbn.
    repeat match goal with
           | |- context [if ?c then _ else _] => destruct c
           end; now split.
  - unfold flashTimeout. destruct (flashTimers st); now split.
Qed.

(** X17. For every sequence of button presses, recognition results,
    animation frames and flash time-outs, the keywords in use are those
    of the route on display, every speech match is the id of a station of
    that route, and there are at most as many matches as stations. *)
Theorem speech_matches_are_on_route (stations : list Station) (inputs : list Input) :
  let st := fold_left (react stations) inputs mounted in
  stationKeywordsRef st = buildStationKeywords (routeStations st)
  /\ (forall x, In x (speechMatches st) -> In x (map id (routeStations st)))
  /\ (length (speechMatches st) <= length (routeStations st))%nat.
Proof.
  intros st.
  assert (H : onRoute st /\ recorded st).
  { subst st.
    assert (H0 : onRoute mounted /\ recorded mounted).
    { repeat split; try constructor; intros x []. }
    revert H0. generalize mounted.
    induction inputs as [|i inputs IH]; intros s [H1 H2]; [now split|].
    cbn [fold_left]. apply IH. split; [now apply react_onRoute|].
    now apply react_recorded. }
  destruct H as [[K S] [N _]]. split; [exact K|]. split; [exact S|].
  rewrite <- (length_map id (routeStations st)).
  apply List.NoDup_incl_length; [exact N|exact S].
Qed.

(** X18. Starting a journey resets the chime count but not the gate of
    the chime detector, and the stop button does not clear the gate
    either: an activation left over from before is still there, with its
    start time, so that the first loud frame of the new journey, if it
    comes [CHIME_MIN_DURATION_MS] or more after that start time, already
    counts as chime number 1. *)
Theorem restart_keeps_chime_activation
  (stations : list Station) (selectedLine : LineId)
  (originId destinationId : string) (speechSupported : bool)
  (microphone : option string) (now : Z) (st : State) (later : Z) (avgDb : Q) :
  originId <> EmptyString -> destinationId <> EmptyString ->
  originId <> destinationId ->
  let st' := handleStart stations selectedLine originId destinationId
                         speechSupported microphone now st in
  chimeCount st' = 0%nat
  /\ chimeActiveRef st' = chimeActiveRef st
  /\ chimeStartRef st' = chimeStartRef st
  /\ chimeActiveRef (handleStop st) = chimeActiveRef st
  /\ (chimeActiveRef st = true ->
      Qlt CHIME_THRESHOLD_DB avgDb ->
      CHIME_MIN_DURATION_MS <= later - chimeStartRef st ->
      chimeCount (tick st' later avgDb) = 1%nat).
Proof.
  intros Ho Hd Hod st'.
  assert (E : chimeCount st' = 0%nat /\ chimeActiveRef st' = chimeActiveRef st
              /\ chimeStartRef st' = chimeStartRef st).
  { subst st'. unfold handleStart.
    apply String.eqb_neq in Ho, Hd, Hod. rewrite Ho, Hd, Hod. cbn [orb].
    destruct speechSupported, microphone; repeat split. }
  destruct E as (C & A & S).
  split; [exact C|]. split; [exact A|]. split; [exact S|]. split; [reflexivity|].
  intros Ha Hdb Hlate.
  assert (Em : emits st' later avgDb = true).
  { unfold emits. rewrite A, S, Ha. apply Qlt_bool_iff in Hdb. rewrite Hdb.
    cbn. now apply Z.leb_le. }
  destruct (tick_emitting st' later avgDb Em) as (C' & _). now rewrite C', C.
Qed.

End AudioLogFacts.

Section BandFacts.

Import Audio.

Lemma bandLoop_empty highBin i rest sum count :
  rest = [] \/ (highBin < i)%nat ->
  bandLoop highBin i rest sum count = (sum, count).
Proof.
  intros [->|H]; [reflexivity|]. destruct rest; [reflexivity|]. cbn.
  destruct (Nat.leb_spec i highBin); [lia|reflexivity].
Qed.

Lemma bandLoop_count (high : nat) (rest : list Q) :
  forall i sum count,
    snd (bandLoop high i rest sum count)
    = (count + Nat.min (List.length rest) (S high - i))%nat.
Proof.
  induction rest as [|x rest IH]; intros i sum count; cbn [bandLoop List.length].
  - cbn. lia.
  - destruct (Nat.leb_spec i high) as [L|L].
    + rewrite IH. lia.
    + cbn [snd]. lia.
Qed.

Lemma bins_of_integer_rate (p : positive) :
  lowBin (inject_Z (Zpos p)) = (CHIME_LOW_HZ * fftSize) / Zpos p
  /\ highBin (inject_Z (Zpos p)) = - ((- (CHIME_HIGH_HZ * fftSize)) / Zpos p).
Proof.
  assert (E : binSize (inject_Z (Z.pos p)) = Z.pos p # 2048).
  { unfold binSize, Qdiv, Qmult, inject_Z, fftSize. cbn [Qnum Qden Qinv].
    now rewrite Z.mul_1_r. }
  unfold lowBin, highBin. rewrite E.
  unfold Qceiling, Qfloor, Qdiv, Qmult, Qopp, Qinv, inject_Z, fftSize,
    CHIME_LOW_HZ, CHIME_HIGH_HZ.
  cbn [Qnum Qden]. split; reflexivity.
Qed.

(** X14. When no bin of the band exists (the band starts beyond the
    analyser's data, or ends before it starts) [tick] takes -100 dBFS for
    the band's level; whatever the state, that frame leaves the detector
    disarmed and adds neither a chime nor a log entry. *)
Theorem band_outside_spectrum_never_chimes
  (freqData : list Q) (low high : nat) (st : State) (now : Z) :
  (List.length freqData <= low)%nat \/ (high < low)%nat ->
  bandAverage freqData low high = (-100) # 1
  /\ chimeActiveRef (tickOn freqData low high st now) = false
  /\ chimeCount (tickOn freqData low high st now) = chimeCount st
  /\ eventLog (tickOn freqData low high st now) = eventLog st.
Proof.
  intros H.
  assert (Empty : bandAverage freqData low high = (-100) # 1).
  { unfold bandAverage. rewrite bandLoop_empty; [reflexivity|].
    destruct H as [H|H]; [left|now right]. now apply skipn_all2. }
  split; [exact Empty|].
  unfold tickOn. rewrite Empty.
  assert (E : emits st now ((-100) # 1) = false) by reflexivity.
  destruct (tick_silent st now _ E) as (C & L & _ & A & _).
  rewrite C, L, A. repeat split.
Qed.

(** X15. The bins of the band for an integer sample rate.  From 5005 Hz
    up the whole band lies inside the 1024 bins of the analyser: the loop
    of [tick] averages [highBin - lowBin + 1] bins and its test
    [i < freqData.length] never ends it.  Up to 1600 Hz the band starts
    beyond the last bin and the level is the fallback, -100 dBFS. *)
Theorem band_fits_spectrum (sampleRate : Z) (freqData : list Q) :
  0 < sampleRate ->
  List.length freqData = frequencyBinCount ->
  let low := Z.to_nat (lowBin (inject_Z sampleRate)) in
  let high := Z.to_nat (highBin (inject_Z sampleRate)) in
  (5005 <= sampleRate ->
   (low <= high < frequencyBinCount)%nat
   /\ snd (bandLoop high low (skipn low freqData) 0 0%nat) = (high - low + 1)%nat)
  /\ (sampleRate <= 1600 ->
      (List.length freqData <= low)%nat
      /\ bandAverage freqData low high = (-100) # 1).
Proof.
  intros Hpos Hlen low high.
  destruct sampleRate as [|p|p]; try lia.
  destruct (bins_of_integer_rate p) as [El Eh].
  unfold CHIME_LOW_HZ, CHIME_HIGH_HZ, fftSize in El, Eh.
  assert (Lo : 800 * 2048 = Z.pos p * lowBin (inject_Z (Z.pos p))
                            + (800 * 2048) mod Z.pos p).
  { rewrite El. apply Z.div_mod. lia. }
  assert (Hi : - (2500 * 2048) = Z.pos p * (- highBin (inject_Z (Z.pos p)))
                                 + (- (2500 * 2048)) mod Z.pos p).
  { rewrite Eh, Z.opp_involutive. apply Z.div_mod. lia. }
  pose proof (Z.mod_pos_bound (800 * 2048) (Z.pos p) ltac:(lia)) as Ml.
  pose proof (Z.mod_pos_bound (- (2500 * 2048)) (Z.pos p) ltac:(lia)) as Mh.
  assert (Fc : frequencyBinCount = 1024%nat) by reflexivity.
  split.
  - intros Big.
    assert (B : 0 <= lowBin (inject_Z (Z.pos p)) <= highBin (inject_Z (Z.pos p))
                /\ highBin (inject_Z (Z.pos p)) < 1024) by nia.
    assert (R : (low <= high < frequencyBinCount)%nat) by (subst low high; lia).
    split; [exact R|].
    rewrite bandLoop_count, length_skipn, Hlen. lia.
  - intros Small.
    assert (B : 1024 <= lowBin (inject_Z (Z.pos p))) by nia.
    assert (R : (List.length freqData <= low)%nat) by (subst low; lia).
    split; [exact R|].
    unfold bandAverage. rewrite skipn_all2 by exact R. reflexivity.
Qed.

End BandFacts.

Section TimeFacts.

Lemma pad2_digits (n : nat) :
  (n < 100)%nat ->
  padStart (decimal n) 2 "0"
  = String (digit (n / 10)) (String (digit (n mod 10)) EmptyString).
Proof.
  intros H.
  assert (T : forallb (fun n => String.eqb (padStart (decimal n) 2 "0")
                                  (String (digit (n / 10))
                                     (String (digit (n mod 10)) EmptyString)))
                      (seq 0 100) = true) by (vm_compute; reflexivity).
  rewrite forallb_forall in T. apply String.eqb_eq, T, in_seq. lia.
Qed.

Lemma digit_inj (a b : nat) : (a < 10)%nat -> (b < 10)%nat -> digit a = digit b -> a = b.
Proof.
  unfold digit. intros Ha Hb E.
  apply (f_equal nat_of_ascii) in E.
  rewrite !nat_ascii_embedding in E by lia. lia.
Qed.

Lemma two_digits_inj (a b : nat) :
  (a < 100)%nat -> (b < 100)%nat ->
  digit (a / 10) = digit (b / 10) -> digit (a mod 10) = digit (b mod 10) ->
  a = b.
Proof.
  intros Ha Hb E1 E2.
  apply digit_inj in E1; [|apply Nat.Div0.div_lt_upper_bound; lia ..].
  apply digit_inj in E2; [|apply Nat.mod_upper_bound; lia ..].
  rewrite (Nat.div_mod_eq a 10), (Nat.div_mod_eq b 10). lia.
Qed.

Lemma formatTime_digits (d : Date) :
  timeOfDay d ->
  formatTime d
  = String (digit (getHours d / 10)) (String (digit (getHours d mod 10))
      (String ":"
        (String (digit (getMinutes d / 10)) (String (digit (getMinutes d mod 10))
          (String ":"
            (String (digit (getSeconds d / 10))
               (String (digit (getSeconds d mod 10)) EmptyString))))))).
Proof.
  intros (H & M & S). unfold formatTime.
  rewrite !pad2_digits by lia. reflexivity.
Qed.

(** X11. A time stamp has eight characters, with colons as the third and
    the sixth, and two times of day with the same stamp are the same
    hour, minute and second. *)
Theorem formatTime_tells_times_apart (d d' : Date) :
  timeOfDay d -> timeOfDay d' ->
  String.length (formatTime d) = 8%nat
  /\ String.get 2 (formatTime d) = Some ":"%char
  /\ String.get 5 (formatTime d) = Some ":"%char
  /\ (formatTime d = formatTime d' -> d = d').
Proof.
  intros T T'. rewrite (formatTime_digits d T), (formatTime_digits d' T').
  repeat split. intros E.
  destruct T as (H & M & S), T' as (H' & M' & S').
  assert (Eh : getHours d = getHours d')
    by (apply two_digits_inj; try lia; congruence).
  assert (Em : getMinutes d = getMinutes d')
    by (apply two_digits_inj; try lia; congruence).
  assert (Es : getSeconds d = getSeconds d')
    by (apply two_digits_inj; try lia; congruence).
  destruct d, d'. cbn in Eh, Em, Es. now subst.
Qed.

End TimeFacts.

Section DisplayFacts.

Import Motion.

Lemma find_by_index (l : list DetectedStop) : forall a n i,
  map index l = seq a n ->
  find (fun d => (index d =? i)%nat) l
  = if ((a <=? i) && (i <? a + n))%nat then nth_error l (i - a) else None.
Proof.
  induction l as [|d l IH]; intros a n i E.
  - cbn [find]. destruct (_ && _)%nat; [now destruct (i - a)%nat|reflexivity].
  - destruct n as [|n]; [discriminate|]. cbn in E. injection E as Ed El.
    cbn [find]. rewrite Ed.
    destruct (Nat.eqb_spec a i) as [->|N].
    + destruct (Nat.leb_spec i i), (Nat.ltb_spec i (i + S n)); try lia.
      now rewrite Nat.sub_diag.
    + rewrite (IH (S a) n i El).
      destruct (Nat.leb_spec (S a) i), (Nat.ltb_spec i (S a + n)),
        (Nat.leb_spec a i), (Nat.ltb_spec i (a + S n)); cbn; try lia;
        try reflexivity.
      replace (i - a)%nat with (S (i - S a)) by lia. reflexivity.
Qed.

(** X10. The route display, whatever the user pressed and the sensor
    delivered: the station at position [i] of the route is marked as
    detected exactly when [1 <= i <= stopCountRef], showing the stop
    detected [i]-th, and the station marked NEXT is the one at position
    [stopCountRef + 1], and no other. *)
Theorem route_display_marks (stations : list Station) (inputs : list Input) (i : nat) :
  let st := fold_left (react stations) inputs mounted in
  detected st i
  = (if ((1 <=? i) && (i <=? stopCountRef st))%nat
     then nth_error (detectedStops st) (i - 1) else None)
  /\ (match detected st i with Some _ => True | None => False end
      <-> (1 <= i <= stopCountRef st)%nat)
  /\ (isNext st i = true <-> i = S (stopCountRef st)).
Proof.
  intros st.
  assert (H : labelled st).
  { apply (session_keeps labelled stations (fun _ => true)).
    - intros s j _. apply react_labelled.
    - now apply forallb_forall.
    - unfold labelled. cbn. repeat split; constructor. }
  destruct H as (L & I & _ & _).
  assert (D : detected st i
              = if ((1 <=? i) && (i <=? stopCountRef st))%nat
                then nth_error (detectedStops st) (i - 1) else None).
  { unfold detected. rewrite (find_by_index _ 1 (stopCountRef st) i I).
    destruct (Nat.leb_spec 1 i), (Nat.ltb_spec i (1 + stopCountRef st)),
      (Nat.leb_spec i (stopCountRef st)); cbn; try lia; reflexivity. }
  split; [exact D|]. split.
  - rewrite D.
    destruct (Nat.leb_spec 1 i), (Nat.leb_spec i (stopCountRef st)); cbn;
      try (split; [tauto|lia]).
    destruct (nth_error (detectedStops st) (i - 1)) eqn:E; [split; [lia|tauto]|].
    apply nth_error_None in E. lia.
  - unfold isNext. cbv zeta. rewrite D, L.
    destruct (Nat.eqb_spec i 0), (Nat.leb_spec 1 i),
      (Nat.leb_spec i (stopCountRef st)),
      (Z.eqb_spec (Z.of_nat (stopCountRef st)) (Z.of_nat i - 1)); cbn;
      try (split; [discriminate|lia]); try (split; [reflexivity|lia]); try lia.
    all: destruct (nth_error (detectedStops st) (i - 1)) eqn:E; cbn;
      try (split; [discriminate|lia]); try (split; [reflexivity|lia]).
Qed.

End DisplayFacts.

Section SampleRateFacts.

Import Motion.

#[local] Arguments confirmStop : simpl never.

Lemma confirmStop_rate now st :
  sampleCountRef (confirmStop now st) = sampleCountRef st
  /\ lastSampleTimeRef (confirmStop now st) = lastSampleTimeRef st
  /\ sampleRate (confirmStop now st) = sampleRate st.
Proof. unfold confirmStop. destruct (_ && _); cbn; repeat split. Qed.

Lemma classify_rate now v st :
  sampleCountRef (classify now v st) = sampleCountRef st
  /\ lastSampleTimeRef (classify now v st) = lastSampleTimeRef st
  /\ sampleRate (classify now v st) = sampleRate st.
Proof.
  unfold classify.
  repeat match goal with
         | |- context [if ?c then _ else _] => destruct c; cbn
         end;
  rewrite ?(proj1 (confirmStop_rate _ _)), ?(proj1 (proj2 (confirmStop_rate _ _))),
    ?(proj2 (proj2 (confirmStop_rate _ _)));
  cbn; repeat split.
Qed.

Lemma handleMotion_rate st ev m :
  magnitude ev = Some m ->
  sampleCountRef (handleMotion st ev) = sampleCountRef (trackSampleRate (clock ev) st)
  /\ lastSampleTimeRef (handleMotion st ev)
     = lastSampleTimeRef (trackSampleRate (clock ev) st)
  /\ sampleRate (handleMotion st ev) = sampleRate (trackSampleRate (clock ev) st).
Proof.
  intros Hm. unfold handleMotion. rewrite Hm. cbv zeta.
  repeat match goal with
         | |- context [if ?c then _ else _] => destruct c
         end;
  rewrite ?(proj1 (classify_rate _ _ _)), ?(proj1 (proj2 (classify_rate _ _ _))),
    ?(proj2 (proj2 (classify_rate _ _ _)));
  unfold trackSampleRate; cbn;
  repeat match goal with
         | |- context [if ?c then _ else _] => destruct c; cbn
         end; repeat split.
Qed.

Lemma refresh_due (period : Z) (j : nat) :
  0 < period ->
  (1000 <= period * Z.of_nat j
   <-> (Z.to_nat ((1000 + period - 1) / period) <= j)%nat).
Proof.
  intros Hp.
  pose proof (Z.div_mod (1000 + period - 1) period ltac:(lia)) as D.
  pose proof (Z.mod_pos_bound (1000 + period - 1) period Hp) as M.
  assert (Q0 : 0 <= (1000 + period - 1) / period) by (apply Z.div_pos; lia).
  split; intros H.
  - apply Nat2Z.inj_le. rewrite Z2Nat.id by exact Q0. nia.
  - apply Nat2Z.inj_le in H. rewrite Z2Nat.id in H by exact Q0. nia.
Qed.

(** X19. The sample rate on display, for readings that arrive every
    [period] ms from the last refresh on: the display is refreshed every
    [k] readings, where [k] is the least number of periods that make up a
    second ([1000 <= period * k < 1000 + period]), and shows [k] from the
    first refresh on; between refreshes the counter holds the readings
    since the last one. *)
Theorem sample_rate_counts_a_second
  (st : State) (period : Z) (events : list DeviceMotionEvent) :
  0 < period ->
  sampleCountRef st = 0%nat ->
  Forall (fun ev => magnitude ev <> None) events ->
  map clock events
  = map (fun i => lastSampleTimeRef st + period * Z.of_nat i)
        (seq 1 (length events)) ->
  let k := Z.to_nat ((1000 + period - 1) / period) in
  let n := length events in
  (1000 <= period * Z.of_nat k < 1000 + period)
  /\ sampleRate (feed st events) = (if (n <? k)%nat then sampleRate st else k)
  /\ sampleCountRef (feed st events) = (n mod k)%nat
  /\ lastSampleTimeRef (feed st events)
     = lastSampleTimeRef st + period * Z.of_nat (n - n mod k).
Proof.
  intros Hp Hc Hm Hclock k n.
  assert (K : (1 <= k)%nat).
  { assert (1 <= (1000 + period - 1) / period)
      by (apply Z.div_le_lower_bound; lia).
    subst k. lia. }
  assert (Kb : 1000 <= period * Z.of_nat k < 1000 + period).
  { split; [apply (proj2 (refresh_due period k Hp)); fold k; lia|].
    assert (~ 1000 <= period * Z.of_nat (k - 1)).
    { intros F. apply (proj1 (refresh_due period (k - 1) Hp)) in F. fold k in F. lia. }
    nia. }
  split; [exact Kb|].
  subst n. revert Hm Hclock. induction events as [|ev events IH] using rev_ind;
    intros Hm Hclock.
  - cbn [feed fold_left length]. rewrite Nat.Div0.mod_0_l by lia.
    destruct (Nat.ltb_spec 0 k); [|lia]. rewrite Hc, Nat.sub_0_r, Z.mul_0_r, Z.add_0_r.
    repeat split.
  - apply Forall_app in Hm as [Hm He]. inversion He as [|? ? Hev _]; subst.
    rewrite length_app in *. cbn [length] in *.
    rewrite Nat.add_1_r in *. rewrite seq_S, !map_app in Hclock. cbn [map] in Hclock.
    apply app_inj_tail in Hclock as [Hclock Hnow].
    specialize (IH Hm Hclock). destruct IH as (R & C & L).
    unfold feed in *. rewrite fold_left_app. cbn [fold_left].
    set (s := fold_left handleMotion events st) in *.
    destruct (magnitude ev) as [m|] eqn:Em; [|congruence].
    destruct (handleMotion_rate s ev m Em) as (C' & L' & R').
    rewrite C', L', R'. clear C' L' R'.
    set (len := length events) in *.
    assert (Cb : (len mod k < k)%nat) by (apply Nat.mod_upper_bound; lia).
    pose proof (Nat.div_mod_eq len k) as Dm.
    unfold trackSampleRate. cbn [sampleCountRef set_sampleCountRef lastSampleTimeRef].
    rewrite L, C, Hnow.
    replace (lastSampleTimeRef st + period * Z.of_nat (1 + len)
             - (lastSampleTimeRef st + period * Z.of_nat (len - len mod k)))
      with (period * Z.of_nat (S (len mod k))) by nia.
    destruct (Z.leb_spec 1000 (period * Z.of_nat (S (len mod k)))) as [Due|Due].
    + apply (proj1 (refresh_due period _ Hp)) in Due. fold k in Due.
      assert (E : (S len mod k = 0)%nat).
      { symmetry. apply (Nat.mod_unique _ _ (S (len / k))); nia. }
      rewrite E. destruct (Nat.ltb_spec (S len) k); [lia|]. cbn.
      repeat split. lia.
    + assert (N : ~ (k <= S (len mod k))%nat).
      { intros F. apply (proj2 (refresh_due period _ Hp)) in F. lia. }
      assert (E : (S len mod k = S (len mod k))%nat).
      { symmetry. apply (Nat.mod_unique _ _ (len / k)); nia. }
      rewrite E.
      assert (Same : (if (S len <? k)%nat then sampleRate st else k)
                     = (if (len <? k)%nat then sampleRate st else k)).
      { destruct (Nat.ltb_spec len k), (Nat.ltb_spec (S len) k);
          try reflexivity; try lia.
        rewrite Nat.mod_small in N by lia. lia. }
      rewrite Same, <- R. cbn.
      split; [reflexivity|]. split; [reflexivity|]. f_equal. f_equal. lia.
Qed.

End SampleRateFacts.

Section RouteOnDisplay.

Lemma route_not_single (stations : list Station) (lineId : LineId)
  (originId destinationId : string) :
  originId <> destinationId ->
  length (getStationsOnRoute stations lineId originId destinationId) <> 1%nat.
Proof.
  intros Hod. unfold getStationsOnRoute. cbv zeta.
  set (l := List.filter (fun s => LineId_eqb (line s) lineId) stations).
  pose proof (findIndex_range (fun s => String.eqb (id s) originId) l) as Ri.
  pose proof (findIndex_range (fun s => String.eqb (id s) destinationId) l) as Rj.
  pose proof (findIndex_found (fun s => String.eqb (id s) originId) l) as Fi.
  pose proof (findIndex_found (fun s => String.eqb (id s) destinationId) l) as Fj.
  set (i := findIndex (fun s => String.eqb (id s) originId) l) in *.
  set (j := findIndex (fun s => String.eqb (id s) destinationId) l) in *.
  destruct (Z.eqb_spec i (-1)) as [Ei|Ei]; [cbn; lia|].
  destruct (Z.eqb_spec j (-1)) as [Ej|Ej]; [cbn; lia|]. cbn [orb].
  destruct Fi as (x & Nx & Px & _); [lia|].
  destruct Fj as (y & Ny & Py & _); [lia|].
  apply String.eqb_eq in Px, Py.
  assert (Nij : i <> j).
  { intros E. rewrite E in Nx. congruence. }
  intros F. apply (f_equal Z.of_nat) in F.
  destruct (Z.ltb_spec i j) as [L|L].
  - rewrite slice_length in F by lia. lia.
  - rewrite length_rev, slice_length in F by lia. lia.
Qed.

Lemma motion_route_kept stations st i :
  length (Motion.routeStations st) <> 1%nat ->
  length (Motion.routeStations (Motion.react stations st i)) <> 1%nat.
Proof.
  intros H. destruct i as [l o d g now| |ev]; cbn [Motion.react].
  - unfold Motion.handleStart.
    destruct (String.eqb o EmptyString || String.eqb d EmptyString) eqn:G;
      [exact H|]. cbn [orb].
    destruct (String.eqb_spec o d) as [E|E]; [exact H|].
    destruct g; cbn; [|exact H]. now apply route_not_single.
  - exact H.
  - destruct (Motion.running st); [|exact H].
    now rewrite (proj1 (proj2 (handleMotion_frame st ev))).
Qed.

Lemma audio_route_kept stations st i :
  length (Audio.routeStations st) <> 1%nat ->
  length (Audio.routeStations (Audio.react stations st i)) <> 1%nat.
Proof.
  intros H. destruct i as [l o d sup mic now| |ev|now db|]; cbn [Audio.react].
  - unfold Audio.handleStart.
    destruct (String.eqb o EmptyString || String.eqb d EmptyString) eqn:G;
      [exact H|]. cbn [orb].
    destruct (String.eqb_spec o d) as [E|E]; [exact H|].
    destruct sup, mic; cbn; now apply route_not_single.
  - exact H.
  - now rewrite (proj1 (proj2 (onresult_log st ev))).
  - unfold Audio.tick. cbv zeta. cbn.
    repeat match goal with
           | |- context [if ?c then _ else _] => destruct c
           end; exact H.
  - unfold Audio.flashTimeout. destruct (Audio.flashTimers st); exact H.
Qed.

(** X20. Whatever the user presses and the devices deliver, the route on
    display of either component is never the origin alone: it is empty or
    has two stations or more.  In the motion component the first detected
    stop of a journey with a route is therefore named after the second
    station of the route. *)
Theorem route_on_display_has_a_destination
  (stations : list Station) (inputs : list Motion.Input) (heard : list Audio.Input) :
  let st := fold_left (Motion.react stations) inputs Motion.mounted in
  let au := fold_left (Audio.react stations) heard Audio.mounted in
  length (Motion.routeStations st) <> 1%nat
  /\ length (Audio.routeStations au) <> 1%nat
  /\ (forall d, hd_error (Motion.detectedStops st) = Some d ->
                Motion.routeStations st <> [] ->
                exists s, nth_error (Motion.routeStations st) 1 = Some s
                          /\ Motion.stationName d = name s).
Proof.
  intros st au.
  assert (M : length (Motion.routeStations st) <> 1%nat).
  { apply (session_keeps (fun s => length (Motion.routeStations s) <> 1%nat)
             stations (fun _ => true)).
    - intros s i _. apply motion_route_kept.
    - now apply forallb_forall.
    - cbn. lia. }
  split; [exact M|]. split.
  - subst au. generalize Audio.mounted, (ltac:(cbn; lia) :
      length (Audio.routeStations Audio.mounted) <> 1%nat).
    induction heard as [|i heard IH]; intros s H; [exact H|].
    cbn [fold_left]. apply IH. now apply audio_route_kept.
  - intros d Hd Hr.
    assert (L : Motion.labelled st).
    { apply (session_keeps Motion.labelled stations (fun _ => true)).
      - intros s i _. apply react_labelled.
      - now apply forallb_forall.
      - unfold Motion.labelled. cbn. repeat split; constructor. }
    destruct L as (_ & Ix & Rr & Nm).
    destruct (Motion.detectedStops st) as [|d0 rest] eqn:E; [discriminate|].
    injection Hd as ->.
    destruct (Motion.stopCountRef st) as [|c]; [discriminate|].
    cbn in Ix. injection Ix as I1 _.
    inversion Nm as [|? ? N1 _]; subst. rewrite I1, Rr in N1.
    destruct (Motion.routeStations st) as [|a [|b r]] eqn:Er;
      [contradiction|cbn in M; lia|].
    exists b. split; [reflexivity|].
    cbn in N1. congruence.
Qed.

End RouteOnDisplay.

Section LongStop.

Import Motion.

#[local] Arguments confirmStop : simpl never.

Lemma quiet_while_moving now v st :
  Qlt_bool v STOP_THRESHOLD = true -> stateRef st = moving ->
  let st' := classify now v st in
  ledger st' = ledger st
  /\ if (MIN_STOP_DURATION <=? S (stateCounterRef st))%nat
     then stateRef st' = stopped /\ pendingStopRef st' = true
          /\ stopStartTimeRef st' = now
     else stateRef st' = moving /\ pendingStopRef st' = pendingStopRef st
          /\ stateCounterRef st' = S (stateCounterRef st).
Proof.
  intros Q M. unfold classify. cbv zeta. rewrite Q, M.
  cbn -[Nat.leb MIN_STOP_DURATION].
  destruct (MIN_STOP_DURATION <=? S (stateCounterRef st))%nat; cbn; repeat split.
  exact M.
Qed.

Lemma quiet_while_stopped now v st :
  Qlt_bool v STOP_THRESHOLD = true -> stateRef st = stopped ->
  let st' := classify now v st in
  stateRef st' = stopped
  /\ stopStartTimeRef st' = stopStartTimeRef st
  /\ routeRef st' = routeRef st
  /\ if pendingStopRef st && (MIN_STOP_MS <=? now - stopStartTimeRef st)
     then pendingStopRef st' = false
          /\ if (lastConfirmedStopRef st =? 0)
                || (MIN_GAP_MS <=? stopStartTimeRef st - lastConfirmedStopRef st)
             then detectedStops st' = detectedStops st ++ [stopAt now st]
                  /\ ignoredStops st' = ignoredStops st
                  /\ stopCountRef st' = S (stopCountRef st)
                  /\ lastConfirmedStopRef st' = now
             else detectedStops st' = detectedStops st
                  /\ ignoredStops st' = S (ignoredStops st)
                  /\ stopCountRef st' = stopCountRef st
                  /\ lastConfirmedStopRef st' = lastConfirmedStopRef st
     else pendingStopRef st' = pendingStopRef st
          /\ detectedStops st' = detectedStops st
          /\ ignoredStops st' = ignoredStops st
          /\ stopCountRef st' = stopCountRef st
          /\ lastConfirmedStopRef st' = lastConfirmedStopRef st.
Proof.
  intros Q M. unfold classify. cbv zeta. rewrite Q, M.
  cbn [MotionState_eqb negb pendingStopRef stopStartTimeRef set_stateCounterRef].
  destruct (pendingStopRef st && (MIN_STOP_MS <=? now - stopStartTimeRef st)) eqn:C.
  - apply andb_true_iff in C as [_ C].
    set (s := set_stateCounterRef 0%nat st).
    destruct (confirmStop_cells now s) as (P & S & N & L & D & I).
    destruct (confirmStop_keeps now s) as (St & _ & _ & _ & _ & R & _).
    rewrite St, S, R, P, N, L, D, I. unfold qualifies, stopAt. subst s.
    cbn [stateRef stopStartTimeRef routeRef lastConfirmedStopRef stopCountRef
         detectedStops ignoredStops set_stateCounterRef].
    rewrite C. cbn [andb].
    repeat split; try assumption.
    destruct (_ || _); repeat split.
  - cbn. repeat split; assumption.
Qed.

Lemma settled_stop_stays (ws : list (Z * Q)) :
  forall st,
    forallb quiet ws = true -> stateRef st = stopped -> pendingStopRef st = false ->
    let st' := classifyEach st ws in
    stateRef st' = stopped /\ pendingStopRef st' = false
    /\ stopStartTimeRef st' = stopStartTimeRef st
    /\ detectedStops st' = detectedStops st /\ ignoredStops st' = ignoredStops st.
Proof.
  induction ws as [|w ws IH]; intros st Q M P; [repeat split; assumption|].
  cbn in Q. apply andb_true_iff in Q as [Qw Q].
  unfold classifyEach. cbn [fold_left].
  destruct (quiet_while_stopped (fst w) (snd w) st Qw M) as (M' & S' & _ & V).
  rewrite P in V. cbn [andb] in V. destruct V as (P' & D' & I' & _).
  destruct (IH _ Q M' P') as (A & B & C & D & E).
  unfold classifyEach in *. rewrite A, B, C, D, E, S', D', I'. repeat split.
Qed.

Lemma pending_stop_resolves (ws : list (Z * Q)) :
  forall st,
    forallb quiet ws = true -> stateRef st = stopped -> pendingStopRef st = true ->
    let st' := classifyEach st ws in
    let start := stopStartTimeRef st in
    stateRef st' = stopped /\ stopStartTimeRef st' = start
    /\ if forallb (fun w => fst w - start <? MIN_STOP_MS) ws
       then pendingStopRef st' = true
            /\ detectedStops st' = detectedStops st
            /\ ignoredStops st' = ignoredStops st
       else pendingStopRef st' = false
            /\ if (lastConfirmedStopRef st =? 0)
                  || (MIN_GAP_MS <=? start - lastConfirmedStopRef st)
               then detectedStops st'
                    = detectedStops st
                        ++ [{| index := S (stopCountRef st);
                               stationName :=
                                 valueOf (stationNameFor (routeRef st)
                                                         (S (stopCountRef st)));
                               time := start |}]
                    /\ ignoredStops st' = ignoredStops st
               else detectedStops st' = detectedStops st
                    /\ ignoredStops st' = S (ignoredStops st).
Proof.
  induction ws as [|w ws IH]; intros st Q M P; [repeat split; assumption|].
  cbn in Q. apply andb_true_iff in Q as [Qw Q].
  unfold classifyEach. cbn [fold_left forallb].
  destruct (quiet_while_stopped (fst w) (snd w) st Qw M) as (M' & S' & R' & V).
  rewrite P in V. cbn [andb] in V.
  destruct (Z.leb_spec MIN_STOP_MS (fst w - stopStartTimeRef st)) as [Late|Early].
  - destruct (Z.ltb_spec (fst w - stopStartTimeRef st) MIN_STOP_MS); [lia|].
    cbn [andb]. destruct V as (P' & V).
    destruct (settled_stop_stays ws _ Q M' P') as (A & B & C & D & E).
    unfold classifyEach in *. rewrite A, B, C, D, E, S'.
    split; [reflexivity|]. split; [reflexivity|]. split; [reflexivity|].
    destruct (_ || _).
    + destruct V as (D' & I' & _). rewrite D', I'. unfold stopAt. now split.
    + destruct V as (D' & I' & _). rewrite D', I'. now split.
  - destruct (Z.ltb_spec (fst w - stopStartTimeRef st) MIN_STOP_MS); [|lia].
    cbn [andb]. destruct V as (P' & D' & I' & N' & L').
      specialize (IH _ Q M' P'). cbv zeta in IH.
    unfold classifyEach in IH. rewrite S', D', I', N', L', R' in IH. exact IH.
Qed.

Lemma lead_in (lead : list (Z * Q)) :
  forall st,
    forallb quiet lead = true -> stateRef st = moving ->
    (length lead + stateCounterRef st < MIN_STOP_DURATION)%nat ->
    let st' := classifyEach st lead in
    stateRef st' = moving
    /\ stateCounterRef st' = (length lead + stateCounterRef st)%nat
    /\ pendingStopRef st' = pendingStopRef st
    /\ ledger st' = ledger st.
Proof.
  induction lead as [|w lead IH]; intros st Q M L; [repeat split; assumption|].
  cbn in Q. apply andb_true_iff in Q as [Qw Q]. cbn [length] in L.
  unfold classifyEach. cbn [fold_left].
  destruct (quiet_while_moving (fst w) (snd w) st Qw M) as (R & V).
  destruct (Nat.leb_spec MIN_STOP_DURATION (S (stateCounterRef st))); [lia|].
  destruct V as (M' & P' & C').
  destruct (IH _ Q M') as (A & B & C & D); [rewrite C'; lia|].
  unfold classifyEach in *. rewrite A, B, C, D, C', P', R. cbn [length].
  repeat split. lia.
Qed.

(** X21. A stop that lasts is counted once.  The detector is [moving]
    with its counter at zero and nothing pending; then every window is
    below the stop threshold.  The eighth such window makes the detector
    [stopped] and starts the stop at its clock reading.  As long as the
    later windows come less than [MIN_STOP_MS] after that start the stop
    stays pending and nothing is counted; once one of them comes
    [MIN_STOP_MS] or more after it the stop has been evaluated, exactly
    once: it is appended to the detected stops, with the next index and
    its start time, if no stop was confirmed before or the last
    confirmation lies [MIN_GAP_MS] or more before its start, and it is
    added to the ignored stops otherwise. *)
Theorem long_stop_is_counted_once
  (st : State) (lead : list (Z * Q)) (w : Z * Q) (rest : list (Z * Q)) :
  stateRef st = moving -> stateCounterRef st = 0%nat -> pendingStopRef st = false ->
  S (length lead) = MIN_STOP_DURATION ->
  forallb quiet (lead ++ w :: rest) = true ->
  let st' := classifyEach st (lead ++ w :: rest) in
  stateRef st' = stopped
  /\ stopStartTimeRef st' = fst w
  /\ if forallb (fun r => fst r - fst w <? MIN_STOP_MS) rest
     then pendingStopRef st' = true
          /\ detectedStops st' = detectedStops st
          /\ ignoredStops st' = ignoredStops st
     else pendingStopRef st' = false
          /\ if (lastConfirmedStopRef st =? 0)
                || (MIN_GAP_MS <=? fst w - lastConfirmedStopRef st)
             then detectedStops st'
                  = detectedStops st
                      ++ [{| index := S (stopCountRef st);
                             stationName :=
                               valueOf (stationNameFor (routeRef st)
                                                       (S (stopCountRef st)));
                             time := fst w |}]
                  /\ ignoredStops st' = ignoredStops st
             else detectedStops st' = detectedStops st
                  /\ ignoredStops st' = S (ignoredStops st).
Proof.
  intros M C P Len Q st'.
  rewrite forallb_app in Q. apply andb_true_iff in Q as [Ql Q].
  cbn in Q. apply andb_true_iff in Q as [Qw Qr].
  destruct (lead_in lead st Ql M) as (M1 & C1 & P1 & R1); [lia|].
  set (s1 := classifyEach st lead) in *.
  destruct (quiet_while_moving (fst w) (snd w) s1 Qw M1) as (R2 & V).
  destruct (Nat.leb_spec MIN_STOP_DURATION (S (stateCounterRef s1))); [|lia].
  destruct V as (M2 & P2 & S2).
  set (s2 := classify (fst w) (snd w) s1) in *.
  assert (E : st' = classifyEach s2 rest).
  { subst st' s2 s1. unfold classifyEach. rewrite fold_left_app. reflexivity. }
  rewrite E.
  destruct (pending_stop_resolves rest s2 Qr M2 P2) as (A & B & V).
  rewrite S2 in B, V.
  unfold ledger in R1, R2. rewrite R1 in R2.
  injection R2 as L2 N2 D2 I2 Rt2.
  rewrite L2, N2, D2, I2, Rt2 in V.
  split; [exact A|]. split; [exact B|]. exact V.
Qed.

End LongStop.

Section WindowsOnly.

Import Motion.

Lemma confirmStop_same now s s' :
  machine s = machine s' -> routeRef s = routeRef s' ->
  machine (confirmStop now s) = machine (confirmStop now s').
Proof.
  unfold machine. intros M R. injection M as M1 M2 M3 M4 M5 M6 M7 M8 M9.
  unfold confirmStop. cbv zeta. cbn -[Z.leb Z.eqb].
  rewrite ?M1, ?M2, ?M3, ?M4, ?M5, ?M6, ?M7, ?M8, ?M9, ?R.
  destruct (_ && _); cbn; rewrite ?M1, ?M2, ?M3, ?M4, ?M5, ?M6, ?M7, ?M8, ?M9, ?R;
    reflexivity.
Qed.

Lemma classify_same now v s s' :
  machine s = machine s' -> routeRef s = routeRef s' ->
  machine (classify now v s) = machine (classify now v s').
Proof.
  intros M R.
  assert (C1 : forall c, machine (confirmStop now (set_stateCounterRef c s))
                         = machine (confirmStop now (set_stateCounterRef c s'))).
  { intros c. apply confirmStop_same; [|exact R].
    unfold machine in *. injection M as M1 M2 M3 M4 M5 M6 M7 M8 M9. cbn.
    now rewrite M1, M2, M4, M5, M6, M7, M8, M9. }
  pose proof M as M0.
  unfold machine in M. injection M as M1 M2 M3 M4 M5 M6 M7 M8 M9.
  unfold classify. cbv zeta. cbn -[confirmStop Nat.leb Z.leb].
  rewrite <- M1, <- M3, <- M4, <- M5.
  repeat match goal with
         | |- context [if ?c then _ else _] => destruct c eqn:?
         end;
  try exact M0; try apply C1;
  try (pose proof (C1 (S (stateCounterRef s))) as E);
  try (pose proof (C1 0%nat) as E');
  unfold machine in *; cbn -[confirmStop] in *; congruence.
Qed.

(** X22. The verdicts depend on a stream of events only through its full
    windows: the state of the machine, the stop counter, the detected and
    the ignored stops after the stream are those the state machine
    reaches when it is run over the clock reading and the variance of
    each full window, in order. *)
Theorem verdicts_follow_windows (st : State) (events : list DeviceMotionEvent) :
  machine (feed st events)
  = machine (classifyEach st (windowsOf (bufferRef st) events)).
Proof.
  enough (G : forall s, machine s = machine st -> routeRef s = routeRef st ->
                        machine (feed st events)
                        = machine (classifyEach s (windowsOf (bufferRef st) events)))
    by now apply G.
  revert st. induction events as [|ev events IH]; intros st s M R; [now symmetry|].
  unfold feed. cbn [fold_left windowsOf].
  destruct (magnitude ev) as [m|] eqn:Em.
  - destruct (handleMotion_reading st ev m Em) as (st1 & M1 & R1 & B1 & Short & Full).
    cbv zeta.
    destruct (Nat.ltb_spec (length (window (bufferRef st) m)) WINDOW_SIZE) as [L|L].
    + destruct (Short L) as [_ E]. rewrite E, <- B1.
      apply IH; congruence.
    + destruct (Full L) as [_ E]. rewrite E.
      unfold classifyEach. cbn [fold_left fst snd].
      set (v := varianceOf (window (bufferRef st) m)).
      assert (Eb : bufferRef (classify (clock ev) v st1) = window (bufferRef st) m).
      { now rewrite (proj1 (classify_buffer (clock ev) v st1)). }
      rewrite <- Eb.
      apply IH.
      * apply classify_same; congruence.
      * rewrite !(proj2 (proj2 (classify_buffer _ _ _))). congruence.
  - assert (E : handleMotion st ev = st) by (unfold handleMotion; now rewrite Em).
    rewrite E. now apply IH.
Qed.

End WindowsOnly.

(** ** The further properties at concrete inputs *)

Section MotionInstances.

Import Motion Scenario.

Lemma buffer_is_sliding_window_witness :
  let st := mounted in
  let events := joltRun 70 in
  let readings := bufferRef st ++ omap magnitude events in
  (length (bufferRef st) <= WINDOW_SIZE)%nat
  /\ bufferRef (feed st events) = skipn (length readings - WINDOW_SIZE) readings
  /\ (length (bufferRef (feed st events)) <= WINDOW_SIZE)%nat.
Proof.
  intros st events readings.
  assert (H : (length (bufferRef st) <= WINDOW_SIZE)%nat) by (cbn; lia).
  split; [exact H|].
  exact (buffer_is_sliding_window st events H).
Defined.

Lemma detected_stops_are_spaced_witness :
  let inputs := startJourney :: map Sensor (twoStops 188) in
  let st := fold_left (react blueLine) inputs mounted in
  forallb clockRuns inputs = true
  /\ Forall (fun d => time d + MIN_STOP_MS <= lastConfirmedStopRef st)
            (detectedStops st)
  /\ StronglySorted (fun a b => time a + (MIN_STOP_MS + MIN_GAP_MS) <= time b)
                    (detectedStops st).
Proof.
  intros inputs st.
  assert (H : forallb clockRuns inputs = true) by (vm_compute; reflexivity).
  split; [exact H|].
  exact (detected_stops_are_spaced blueLine inputs H).
Defined.

Lemma no_stop_before_moving_witness :
  let st := session [] in
  let events := twoStops 99 in
  pendingStopRef st = false
  /\ (detectedStops (feed st events) <> detectedStops st
      \/ ignoredStops (feed st events) <> ignoredStops st)
  /\ exists k, stateRef (feed st (firstn k events)) = moving.
Proof.
  intros st events.
  assert (H1 : pendingStopRef st = false) by reflexivity.
  assert (H2 : detectedStops (feed st events) <> detectedStops st
               \/ ignoredStops (feed st events) <> ignoredStops st).
  { left. vm_compute. discriminate. }
  split; [exact H1|]. split; [exact H2|].
  exact (no_stop_before_moving st events H1 H2).
Defined.

Lemma sample_rate_counts_a_second_witness :
  let st := session [] in
  let events := joltRun 25 in
  0 < 50
  /\ sampleCountRef st = 0%nat
  /\ Forall (fun ev => magnitude ev <> None) events
  /\ map clock events
     = map (fun i => lastSampleTimeRef st + 50 * Z.of_nat i) (seq 1 (length events))
  /\ sampleRate (feed st events) = 20%nat
  /\ sampleCountRef (feed st events) = 5%nat
  /\ lastSampleTimeRef (feed st events) = t0 + 1000.
Proof.
  intros st events.
  assert (H1 : 0 < 50) by lia.
  assert (H2 : sampleCountRef st = 0%nat) by reflexivity.
  assert (H3 : Forall (fun ev => magnitude ev <> None) events).
  { apply List.Forall_forall. intros ev H.
    apply in_map_iff in H as (i & <- & _). discriminate. }
  assert (H4 : map clock events
               = map (fun i => lastSampleTimeRef st + 50 * Z.of_nat i)
                     (seq 1 (length events))) by reflexivity.
  split; [exact H1|]. split; [exact H2|]. split; [exact H3|]. split; [exact H4|].
  exact (proj2 (sample_rate_counts_a_second st 50 events H1 H2 H3 H4)).
Defined.

Lemma long_stop_is_counted_once_witness :
  let st := session (twoStops 69) in
  let still := map (fun i => (t0 + 700 * Z.of_nat i, 0%Q)) in
  let lead := still (seq 70 7) in
  let w := (t0 + 700 * 77, 0%Q) in
  let rest := still (seq 78 22) in
  let st' := classifyEach st (lead ++ w :: rest) in
  (stateRef st = moving /\ stateCounterRef st = 0%nat /\ pendingStopRef st = false
   /\ lastConfirmedStopRef st = 0 /\ stopCountRef st = 0%nat
   /\ detectedStops st = [] /\ routeRef st = blueLine)
  /\ S (length lead) = MIN_STOP_DURATION
  /\ forallb quiet (lead ++ w :: rest) = true
  /\ forallb (fun r => fst r - fst w <? MIN_STOP_MS) rest = false
  /\ stateRef st' = stopped
  /\ stopStartTimeRef st' = t0 + 700 * 77
  /\ pendingStopRef st' = false
  /\ detectedStops st'
     = [{| index := 1; stationName := "Tao Poon"; time := t0 + 700 * 77 |}]
  /\ ignoredStops st' = ignoredStops st.
Proof.
  intros st still lead w rest st'.
  assert (H : stateRef st = moving /\ stateCounterRef st = 0%nat
              /\ pendingStopRef st = false
              /\ lastConfirmedStopRef st = 0 /\ stopCountRef st = 0%nat
              /\ detectedStops st = [] /\ routeRef st = blueLine).
  { vm_compute. repeat split. }
  assert (Hl : S (length lead) = MIN_STOP_DURATION) by reflexivity.
  assert (Hq : forallb quiet (lead ++ w :: rest) = true) by reflexivity.
  assert (Hr : forallb (fun r => fst r - fst w <? MIN_STOP_MS) rest = false)
    by reflexivity.
  split; [exact H|]. split; [exact Hl|]. split; [exact Hq|]. split; [exact Hr|].
  destruct H as (H1 & H2 & H3 & H4 & H5 & H6 & H7).
  destruct (long_stop_is_counted_once st lead w rest H1 H2 H3 Hl Hq)
    as (A & B & V).
  rewrite Hr, H4, H5, H6, H7 in V.
  split; [exact A|]. split; [exact B|]. exact V.
Defined.

End MotionInstances.

Section AudioInstances.

Import Audio Scenario.

Lemma restart_keeps_chime_activation_witness :
  let st := listen [Frame (t0 + 1000) ((-20) # 1); PressStop] in
  let st' := handleStart blueLine mrt_blue "BL11" "BL07" true None
                         (t0 + 60000) st in
  "BL11"%string <> EmptyString
  /\ "BL07"%string <> EmptyString
  /\ "BL11"%string <> "BL07"%string
  /\ chimeActiveRef st = true
  /\ Qlt CHIME_THRESHOLD_DB ((-20) # 1)
  /\ CHIME_MIN_DURATION_MS <= (t0 + 60016) - chimeStartRef st
  /\ chimeCount st' = 0%nat
  /\ chimeCount (tick st' (t0 + 60016) ((-20) # 1)) = 1%nat.
Proof.
  intros st st'.
  assert (I1 : "BL11"%string <> EmptyString) by discriminate.
  assert (I2 : "BL07"%string <> EmptyString) by discriminate.
  assert (I3 : "BL11"%string <> "BL07"%string) by discriminate.
  assert (H1 : chimeActiveRef st = true) by reflexivity.
  assert (H2 : Qlt CHIME_THRESHOLD_DB ((-20) # 1)) by reflexivity.
  assert (H3 : CHIME_MIN_DURATION_MS <= (t0 + 60016) - chimeStartRef st).
  { vm_compute. discriminate. }
  destruct (restart_keeps_chime_activation blueLine mrt_blue "BL11" "BL07" true None
              (t0 + 60000) st (t0 + 60016) ((-20) # 1) I1 I2 I3)
    as (C & _ & _ & _ & Emit).
  repeat (split; [first [exact I1|exact I2|exact I3|exact H1|exact H2|exact H3|exact C]|]).
  exact (Emit H1 H2 H3).
Defined.

Lemma band_outside_spectrum_never_chimes_witness :
  let st := listen [Frame (t0 + 1000) ((-20) # 1)] in
  let freqData := repeat ((-20) # 1) 8 in
  ((List.length freqData <= 8)%nat \/ (11 < 8)%nat)
  /\ chimeActiveRef st = true
  /\ bandAverage freqData 8 11 = (-100) # 1
  /\ chimeActiveRef (tickOn freqData 8 11 st (t0 + 1600)) = false
  /\ chimeCount (tickOn freqData 8 11 st (t0 + 1600)) = chimeCount st
  /\ eventLog (tickOn freqData 8 11 st (t0 + 1600)) = eventLog st.
Proof.
  intros st freqData.
  assert (H : (List.length freqData <= 8)%nat \/ (11 < 8)%nat).
  { left. cbn. lia. }
  split; [exact H|]. split; [reflexivity|].
  exact (band_outside_spectrum_never_chimes freqData 8 11 st (t0 + 1600) H).
Defined.

Lemma band_fits_spectrum_witness :
  let freqData := repeat ((-60) # 1) 1024 in
  let low := Z.to_nat (lowBin (inject_Z 48000)) in
  let high := Z.to_nat (highBin (inject_Z 48000)) in
  0 < 48000
  /\ List.length freqData = frequencyBinCount
  /\ low = 34%nat /\ high = 107%nat
  /\ (low <= high < frequencyBinCount)%nat
  /\ snd (bandLoop high low (skipn low freqData) 0 0%nat) = (high - low + 1)%nat.
Proof.
  intros freqData low high.
  assert (H1 : 0 < 48000) by lia.
  assert (H2 : List.length freqData = frequencyBinCount) by reflexivity.
  assert (H3 : 5005 <= 48000) by lia.
  split; [exact H1|]. split; [exact H2|].
  split; [reflexivity|]. split; [reflexivity|].
  exact (proj1 (band_fits_spectrum 48000 freqData H1 H2) H3).
Defined.

End AudioInstances.

Section TimeInstances.

Lemma formatTime_tells_times_apart_witness :
  let d := {| getHours := 9; getMinutes := 5; getSeconds := 7 |} in
  let d' := {| getHours := 21; getMinutes := 5; getSeconds := 7 |} in
  timeOfDay d /\ timeOfDay d'
  /\ formatTime d = "09:05:07"%string
  /\ String.length (formatTime d) = 8%nat
  /\ String.get 2 (formatTime d) = Some ":"%char
  /\ String.get 5 (formatTime d) = Some ":"%char
  /\ (formatTime d = formatTime d' -> d = d').
Proof.
  intros d d'.
  assert (H1 : timeOfDay d) by (unfold timeOfDay; cbn; lia).
  assert (H2 : timeOfDay d') by (unfold timeOfDay; cbn; lia).
  split; [exact H1|]. split; [exact H2|]. split; [reflexivity|].
  exact (formatTime_tells_times_apart d d' H1 H2).
Defined.

End TimeInstances.

